(** * morpho-gpt: retrieval-augmented question answering over Pinecone

    A shallow embedding of [src/services/pinecone.ts] and
    [src/read/routeDiscord.ts], and the properties of the ingestion path
    (link extraction, vector records, batched upsert), of the query path
    (response reshaping, the language-model call) and of the Discord
    command handler. *)

From Stdlib Require Import NArith Ascii DecimalString DecimalNat.
From stdpp Require Import gmap strings list.
From Equations Require Import Equations.

(** ** JavaScript strings

    A JavaScript string is a sequence of UTF-16 code units.  The regular
    expression of the ingestion path is not compiled with the [u] flag, so
    it works on code units as well. *)

Definition jsstring := list N.

(** A string literal of the source (all of them are ASCII). *)
Definition lit (s : string) : jsstring :=
  (λ a, N_of_ascii a) <$> String.list_ascii_of_string s.

(** [`${n}`] for an array index or a length. *)
Definition decimal (n : nat) : jsstring :=
  lit (NilZero.string_of_uint (Nat.to_uint n)).

(** [Array.prototype.join] on an array of strings. *)
Fixpoint join (sep : jsstring) (parts : list jsstring) : jsstring :=
  match parts with
  | [] => []
  | [p] => p
  | p :: ps => p ++ sep ++ join sep ps
  end.

(** ** The regular expression [/Link: (.+)/]

    [LineTerminator] is the set of code units that [.] does not match:
    LF, CR, U+2028 and U+2029. *)

Definition LineTerminator (c : N) : bool :=
  ((c =? 10) || (c =? 13) || (c =? 8232) || (c =? 8233))%N.

Definition dot (c : N) : bool := negb (LineTerminator c).

(** Matching the literal part of a pattern at the head of the input. *)
Fixpoint match_literal (p s : jsstring) : option jsstring :=
  match p, s with
  | [], _ => Some s
  | a :: p', b :: s' => if (a =? b)%N then match_literal p' s' else None
  | _ :: _, [] => None
  end.

(** The longest run of characters accepted by [f]: a greedy [f*] with
    nothing after it in the pattern never has to give characters back. *)
Fixpoint greedy (f : N → bool) (s : jsstring) : jsstring :=
  match s with
  | c :: s' => if f c then c :: greedy f s' else []
  | [] => []
  end.

(** One attempt of [/Link: (.+)/] at the head of the input; the result is
    capture group 1. *)
Definition match_here (s : jsstring) : option jsstring :=
  match match_literal (lit "Link: ") s with
  | Some rest =>
      match greedy dot rest with
      | [] => None
      | c :: cs => Some (c :: cs)
      end
  | None => None
  end.

(** [text.match(re)] for a regular expression without the [g] flag: the
    attempts start at index 0 and move right until one succeeds. *)
Fixpoint regexp_match (s : jsstring) : option jsstring :=
  match match_here s with
  | Some capture => Some capture
  | None =>
      match s with
      | [] => None
      | _ :: s' => regexp_match s'
      end
  end.

(** Lines 183-184 of [processDocument]. *)
Definition extractDocumentLink (text : jsstring) : jsstring :=
  match regexp_match text with
  | Some capture => capture
  | None => []
  end.



(** ** Arrays and sets *)

(** [a.slice(start, end)] for [0 <= start <= end]; both ends are clamped to
    the length of the array. *)
Definition slice {A} (start end_ : nat) (a : list A) : list A :=
  take (end_ - start) (drop start a).

(** A JavaScript [Set] keeps its elements in insertion order, and adding an
    element that is already present changes nothing.  [Set_new] is
    [new Set(iterable)]; spreading the set into an array gives the elements
    in insertion order, that is the list itself. *)
Definition Set_add {A} {A_eq_dec : EqDecision A} (s : list A) (x : A) : list A :=
  if decide (x ∈ s) then s else s ++ [x].

Definition Set_new {A} {A_eq_dec : EqDecision A} (iterable : list A) : list A :=
  foldl Set_add [] iterable.

(** The specification's order-preserving deduplication in which the first
    occurrence wins: keep the head, drop its later copies. *)
Fixpoint spec_dedup {A} {A_eq_dec : EqDecision A} (l : list A) : list A :=
  match l with
  | [] => []
  | x :: l' => x :: filter (λ y, y ≠ x) (spec_dedup l')
  end.

(** [ceil(a / b)] on natural numbers. *)
Definition spec_ceil_div (a b : nat) : nat := (a + (b - 1)) / b.

Definition LF : jsstring := [10%N].

(** [s.replace(/\n/g, " ")] *)
Definition replace_newlines (s : jsstring) : jsstring :=
  (λ c, if (c =? 10)%N then 32%N else c) <$> s.

Section Model.

(** JavaScript numbers (scores, embedding components) and the values the
    code only passes along (booleans, numbers, arrays and nested objects
    inside metadata, error objects) stay abstract.  Equality on [other] is
    SameValueZero. *)
Context {number other : Type} {other_eq_dec : EqDecision other}.

Inductive jsval :=
| JUndefined
| JNull
| JStr (s : jsstring)
| JOther (o : other).

#[global] Instance jsval_eq_dec : EqDecision jsval.
Proof. solve_decision. Defined.

(** The built-ins [String(v)] (template literals, [join]) on the values
    that are not strings already, and [JSON.stringify]. *)
Context (other_to_string : other → jsstring).
Context (JSON_stringify : jsval → jsval).

Definition ToString (v : jsval) : jsstring :=
  match v with
  | JUndefined => lit "undefined"
  | JNull => lit "null"
  | JStr s => s
  | JOther o => other_to_string o
  end.

(** [a ?? b] *)
Definition nullish_coalescing (a b : jsval) : jsval :=
  match a with
  | JUndefined | JNull => b
  | _ => a
  end.

(** [values.join(sep)]: [undefined] and [null] elements print as the empty
    string. *)
Definition Array_join (sep : jsstring) (a : list jsval) : jsstring :=
  join sep ((λ v, match v with
                  | JUndefined | JNull => []
                  | _ => ToString v
                  end) <$> a).

(** Plain objects with string keys: [o.k] and ["k" in o]. *)
Definition get (o : gmap string jsval) (k : string) : jsval :=
  default JUndefined (o !! k).

Definition has_property (k : string) (o : gmap string jsval) : bool :=
  bool_decide (is_Some (o !! k)).

(** [o?.k] on an object that may be missing. *)
Definition optional_get (o : option (gmap string jsval)) (k : string) : jsval :=
  match o with
  | Some o => get o k
  | None => JUndefined
  end.

(** ** Data *)

(** A match of the vector store ([ScoredVector] of the Pinecone client). *)
Record ScoredVector := {
  match_id : jsstring;
  match_score : option number;
  match_values : option (list number);
  match_sparseValues : option other;
  match_metadata : option (gmap string jsval);
}.

(** The raw response of the vector store. *)
Record PineconeQueryResponse := {
  raw_results : option other;
  raw_matches : option (list ScoredVector);
  raw_namespace : option jsstring;
}.

Record QueryResponse := {
  matches : option (list ScoredVector);
  namespace : option jsstring;
}.

(** A langchain [Document]: the input of the ingestion and a chunk of the
    text splitter. *)
Record Document := {
  pageContent : jsstring;
  doc_metadata : gmap string jsval;
}.

(** A record to upsert; [vec_values] is [embeddingsArrays[idx]], which is
    [undefined] past the end of the array. *)
Record Vector := {
  vec_id : jsstring;
  vec_values : option (list number);
  vec_metadata : gmap string jsval;
}.

Record AnswerResult := {
  answer : jsval;
  documentLinks : list jsval;
}.

(** ** Example data

    A raw response with three matches: one whose metadata has both fields
    (and a third one), one whose metadata has no [docLink], one without
    metadata; and the document of the ingestion scenario of the
    specification. *)

Definition example_match (id : string) (metadata : option (gmap string jsval))
  : ScoredVector :=
  {| match_id := lit id; match_score := None; match_values := None;
     match_sparseValues := None; match_metadata := metadata |}.

Definition example_metadata : gmap string jsval :=
  <["docLink" := JStr (lit "https://docs/a")]>
    (<["txtPath" := JStr (lit "a.txt")]>
       {["pageContent" := JStr (lit "Morpho is a lending protocol.")]}).

Definition example_raw_metadata : gmap string jsval :=
  {["pageContent" := JStr (lit "No link here.")]}.

Definition example_response : PineconeQueryResponse :=
  {| raw_results := None;
     raw_matches :=
       Some [example_match "a.txt_0" (Some example_metadata);
             example_match "b.txt_3" (Some example_raw_metadata);
             example_match "c.txt_1" None];
     raw_namespace := Some (lit "docs") |}.

Definition example_document : Document :=
  {| pageContent :=
       lit "Link: http://doc1" ++ LF ++ lit "Hello world, this is a test.";
     doc_metadata := {["source" := JStr (lit "a.txt")]} |}.

Definition example_vector : Vector :=
  {| vec_id := lit "a.txt_0"; vec_values := None; vec_metadata := ∅ |}.

(** ** Effects

    What the code does to the outside world is a trace of events; a
    computation extends the trace and returns or throws. *)

Context {PineconeClient Message : Type}.

Inductive event :=
| console_log_ev (msg : jsstring)
| console_error_ev (label : jsstring) (error : jsval)
| chain_call_ev (input_document question : jsstring)
| embedDocuments_ev (texts : list jsstring)
| index_upsert_ev (vectors : list Vector)
| channel_send_ev (message : Message) (content : jsstring).

Inductive outcome (A : Type) :=
| Returned (a : A)
| Thrown (error : jsval).
#[global] Arguments Returned {A} a.
#[global] Arguments Thrown {A} error.

Definition M (A : Type) : Type := list event → outcome A * list event.

#[global] Instance M_ret : MRet M := λ A a t, (Returned a, t).

#[global] Instance M_bind : MBind M := λ A B f m t,
  match m t with
  | (Returned a, t') => f a t'
  | (Thrown e, t') => (Thrown e, t')
  end.

Definition emit (e : event) : M unit := λ t, (Returned (), t ++ [e]).

(** [try { body } catch (error) { handler(error) }] *)
Definition try_catch {A} (body : M A) (handler : jsval → M A) : M A := λ t,
  match body t with
  | (Returned a, t') => (Returned a, t')
  | (Thrown e, t') => handler e t'
  end.

(** The answer of an external service may depend on everything that
    happened before. *)
Definition ask {A} (service : list event → outcome A) : M A := λ t, (service t, t).

(** The external collaborators.  A constructor either succeeds or throws;
    a call resolves or rejects. *)
Record world := {
  new_OpenAI : jsstring → jsstring → option jsval;
  chain_call : list event → jsstring → jsstring → outcome jsval;
  createDocuments : jsstring → outcome (list Document);
  new_OpenAIEmbeddings : jsstring → option jsval;
  embedDocuments : list event → list jsstring → outcome (list (list number));
  index_upsert : list event → list Vector → option jsval;
}.

Definition may_throw (r : option jsval) : outcome unit :=
  match r with
  | Some e => Thrown e
  | None => Returned ()
  end.

(** A world in which every service succeeds: the completion is [text],
    the splitter returns the whole text as one chunk located at [loc],
    every chunk gets the same embedding and the index accepts every
    batch. *)
Definition example_world (text : jsval) (embedding : list number) (loc : jsval)
  : world :=
  {| new_OpenAI := λ _ _, None;
     chain_call := λ _ _ _, Returned text;
     createDocuments :=
       λ text, Returned [{| pageContent := text;
                            doc_metadata := {["loc" := loc]} |}];
     new_OpenAIEmbeddings := λ _, None;
     embedDocuments := λ _ texts, Returned ((λ _, embedding) <$> texts);
     index_upsert := λ _ _, None |}.

Context (w : world).

Definition console_log (msg : jsstring) : M unit := emit (console_log_ev msg).
Definition console_error (label : jsstring) (error : jsval) : M unit :=
  emit (console_error_ev label error).
Definition channel_send (message : Message) (content : jsstring) : M unit :=
  emit (channel_send_ev message content).

(** ** [src/services/pinecone.ts] *)

Definition formatPineconeResponse_match (match_ : ScoredVector) : ScoredVector :=
  match match_metadata match_ with
  | Some metadata =>
      if has_property "pageContent" metadata && has_property "docLink" metadata
      then {| match_id := match_id match_;
              match_score := match_score match_;
              match_values := match_values match_;
              match_sparseValues := match_sparseValues match_;
              match_metadata :=
                Some (<["docLink" := get metadata "docLink"]>
                        {["pageContent" := get metadata "pageContent"]}) |}
      else match_
  | None => match_
  end.

Definition formatPineconeResponse (pineconeResponse : PineconeQueryResponse)
  : QueryResponse :=
  {| matches := fmap (M := list) formatPineconeResponse_match
                  <$> raw_matches pineconeResponse;
     namespace := raw_namespace pineconeResponse |}.

Definition instructions : jsstring :=
  lit "You're an AI assistant. Based on the following excerpts from a long document, provide a conversational answer to the question asked. If the answer isn't in the context, simply respond with 'Hmm, I'm not sure.' Don't invent an answer. If the question isn't related to the context, state that you are programmed to answer questions relevant to the given context. Remember, you cannot use images or visual content to form your answer. Do the answer in less than 2000 characters.".

(** [queryResponse.matches.map((match) => match.metadata?.pageContent ?? "").join(" ")] *)
Definition concatenatedPageContent (ms : list ScoredVector) : jsstring :=
  Array_join (lit " ")
    ((λ match_, nullish_coalescing
                  (optional_get (match_metadata match_) "pageContent") (JStr []))
       <$> ms).

(** [queryResponse.matches.map((match) => match.metadata?.docLink ?? "")] *)
Definition documentLinks_of (ms : list ScoredVector) : list jsval :=
  (λ match_, nullish_coalescing
               (optional_get (match_metadata match_) "docLink") (JStr []))
    <$> ms.

(** [queryResponse?.matches?.length] is truthy for a non-empty array
    only. *)
Definition queryLanguageModelWithPineconeResponse
    (queryResponse : option QueryResponse) (question openAIApiKey : jsstring)
  : M (option AnswerResult) :=
  console_log (lit "Asking question: " ++ question ++ lit "...");;
  match queryResponse ≫= matches with
  | Some (m :: ms) =>
      let matches := m :: ms in
      console_log (lit "Found " ++ decimal (length matches) ++ lit " matches...");;
      let preparedQuestion := instructions ++ LF ++ LF ++ question in
      ask (λ _, may_throw (new_OpenAI w (lit "gpt-3.5-turbo-16k") openAIApiKey));;
      let input_document := concatenatedPageContent matches in
      let links := documentLinks_of matches in
      emit (chain_call_ev input_document preparedQuestion);;
      text ← ask (λ t, chain_call w t input_document preparedQuestion);
      console_log (lit "Answer: " ++ ToString text);;
      mret (Some {| answer := text; documentLinks := links |})
  | _ =>
      console_log (lit "Since there are no matches, GPT-3.5 will not be queried.");;
      mret None
  end.

(** The metadata of the record of one chunk:
    [{...chunk.metadata, loc: JSON.stringify(chunk.metadata.loc), pageContent,
    txtPath, docLink}]; a later key overwrites an earlier one. *)
Definition vector_metadata (chunk : Document) (txtPath : jsval)
    (documentLink : jsstring) : gmap string jsval :=
  <["docLink" := JStr documentLink]>
    (<["txtPath" := txtPath]>
       (<["pageContent" := JStr (pageContent chunk)]>
          (<["loc" := JSON_stringify (get (doc_metadata chunk) "loc")]>
             (doc_metadata chunk)))).

Definition processDocument (doc : Document) (openAIApiKey : jsstring)
  : M (list Vector) :=
  let txtPath := get (doc_metadata doc) "source" in
  let text := pageContent doc in
  let documentLink := extractDocumentLink text in
  chunks ← ask (λ _, createDocuments w text);
  ask (λ _, may_throw (new_OpenAIEmbeddings w openAIApiKey));;
  let texts := (λ chunk, replace_newlines (pageContent chunk)) <$> chunks in
  emit (embedDocuments_ev texts);;
  embeddingsArrays ← ask (λ t, embedDocuments w t texts);
  mret (imap (λ idx chunk,
                {| vec_id := ToString txtPath ++ lit "_" ++ decimal idx;
                   vec_values := embeddingsArrays !! idx;
                   vec_metadata := vector_metadata chunk txtPath documentLink |})
          chunks).

Definition batchSize : nat := 100.

(** The loop of [upsertVectors], entered with the counter at [i]. *)
Equations? upsertVectors_from (vectors : list Vector) (i : nat) : M unit
  by wf (length vectors - i) lt :=
  upsertVectors_from vectors i with decide (i < length vectors) => {
    | left _ =>
        let batch := slice i (i + batchSize) vectors in
        emit (index_upsert_ev batch);;
        ask (λ t, may_throw (index_upsert w t batch));;
        upsertVectors_from vectors (i + batchSize)
    | right _ => mret ()
  }.
Proof. unfold batchSize. lia. Qed.

Definition upsertVectors (vectors : list Vector) : M unit :=
  upsertVectors_from vectors 0.

(** The loop of [updatePineconeIndex] over [docs.entries()]. *)
Fixpoint updatePineconeIndex_from (openAIApiKey : jsstring) (total i : nat)
    (docs : list Document) : M unit :=
  match docs with
  | [] => mret ()
  | doc :: docs' =>
      vectors ← processDocument doc openAIApiKey;
      upsertVectors vectors;;
      console_log (lit "Processing document " ++ decimal (i + 1) ++ lit " of "
                     ++ decimal total ++ lit ", generated "
                     ++ decimal (length vectors) ++ lit " vectors");;
      updatePineconeIndex_from openAIApiKey total (i + 1) docs'
  end.

(** [client.Index(indexName)] is a synchronous call of the client library
    that reaches no service; it throws on a client that cannot hand out a
    handle of the index, as one whose [init] has not completed.
    [Some error] is what it throws. *)
Context (client_Index : PineconeClient → jsstring → option jsval).

Definition updatePineconeIndex (client : PineconeClient)
    (openAIApiKey indexName : jsstring) (docs : list Document) : M unit :=
  ask (λ _, may_throw (client_Index client indexName));;
  updatePineconeIndex_from openAIApiKey (length docs) 0 docs.

(** ** [src/read/routeDiscord.ts] *)

(** [queryPineconeVectorStoreAndQueryLLM] is imported from [../utils]; the
    handler only sees that it returns an answer, returns nothing, or
    throws. *)
Context (queryPineconeVectorStoreAndQueryLLM :
           PineconeClient → jsstring → jsstring → M (option AnswerResult)).

(** [[...new Set(result.documentLinks)]] *)
Definition distinctDocumentLinks (links : list jsval) : list jsval :=
  Set_new links.

(** [distinctDocumentLinks.slice(0, 3)] *)
Definition top_documentLinks (links : list jsval) : list jsval :=
  slice 0 3 (distinctDocumentLinks links).

Definition link_line (index : nat) (link : jsval) : jsstring :=
  lit "**Link " ++ decimal (index + 1) ++ lit ":** <" ++ ToString link ++ lit ">".

Definition linksString (links : list jsval) : jsstring :=
  join LF (imap link_line (top_documentLinks links)).

Definition reply (result : AnswerResult) : jsstring :=
  LF ++ lit "**Answer:**" ++ LF ++ lit " " ++ ToString (answer result) ++ LF
     ++ lit "**Useful resources:**" ++ LF ++ linksString (documentLinks result).

Definition handleReadCommand (message : Message) (question : jsstring)
    (pineconeClient : PineconeClient) (pineconeTestIndex : jsstring) : M unit :=
  try_catch
    (result ← queryPineconeVectorStoreAndQueryLLM
                pineconeClient pineconeTestIndex question;
     match result with
     | Some result => channel_send message (reply result)
     | None => channel_send message (lit "No results found for your query.")
     end)
    (λ error,
       console_error (lit "Error:") error;;
       channel_send message (lit "An error occurred while processing your request.")).

(** Vocabulary of the statements about the query path: the events that are
    calls of the completion endpoint, the text a match contributes to the
    context blob, and a match without a usable [docLink]. *)
Definition is_chain_call (e : event) : bool :=
  match e with
  | chain_call_ev _ _ => true
  | _ => false
  end.

Definition spec_pageContent_text (m : ScoredVector) : jsstring :=
  match optional_get (match_metadata m) "pageContent" with
  | JUndefined | JNull => []
  | v => ToString v
  end.

Definition spec_lacks_docLink (m : ScoredVector) : Prop :=
  match match_metadata m with
  | None => True
  | Some md =>
      md !! "docLink" = None ∨ md !! "docLink" = Some JUndefined
      ∨ md !! "docLink" = Some JNull
  end.

(** ** Index management and the query of the vector store

    [createPineconeIndexIfNotExist] and [queryPineconeVectorStore] talk to
    the control plane of Pinecone, to an index and to the embedding
    endpoint.  Their calls are recorded next to the events above. *)

Record CreateRequest := {
  create_name : jsstring;
  create_dimension : number;
  create_metric : jsstring;
}.

Record QueryRequest := {
  topK : nat;
  vector : list number;
  includeMetadata : bool;
  includeValues : bool;
}.

Inductive store_event :=
| listIndexes_ev (client : PineconeClient)
| createIndex_ev (client : PineconeClient) (createRequest : CreateRequest)
| setTimeout_ev (ms : Z)
| embedQuery_ev (text : jsstring)
| index_query_ev (client : PineconeClient) (indexName : jsstring)
    (queryRequest : QueryRequest).

Definition effect : Type := event + store_event.

Definition MS (A : Type) : Type := list effect → outcome A * list effect.

#[global] Instance MS_ret : MRet MS := λ A a t, (Returned a, t).

#[global] Instance MS_bind : MBind MS := λ A B f m t,
  match m t with
  | (Returned a, t') => f a t'
  | (Thrown e, t') => (Thrown e, t')
  end.

Definition emit_store (e : effect) : MS unit := λ t, (Returned (), t ++ [e]).

Definition ask_store {A} (service : list effect → outcome A) : MS A :=
  λ t, (service t, t).

Definition store_log (msg : jsstring) : MS unit :=
  emit_store (inl (console_log_ev msg)).

(** The services behind the client: the list of indexes, index creation,
    [new OpenAIEmbeddings()] without arguments, the embedding of a query
    and the similarity query of an index. *)
Record vector_store := {
  listIndexes : list effect → PineconeClient → outcome (list jsstring);
  createIndex : list effect → PineconeClient → CreateRequest → option jsval;
  new_OpenAIEmbeddings_env : option jsval;
  embedQuery : list effect → jsstring → outcome (list number);
  index_query : list effect → PineconeClient → jsstring → QueryRequest
                → outcome PineconeQueryResponse;
}.

Context (store : vector_store).

Definition queryPineconeVectorStore (client : PineconeClient)
    (indexName question : jsstring) : MS PineconeQueryResponse :=
  store_log (lit "Querying Pinecone vector store...");;
  ask_store (λ _, may_throw (client_Index client indexName));;
  ask_store (λ _, may_throw (new_OpenAIEmbeddings_env store));;
  emit_store (inr (embedQuery_ev question));;
  queryEmbedding ← ask_store (λ t, embedQuery store t question);
  let queryRequest :=
    {| topK := 10; vector := queryEmbedding;
       includeMetadata := true; includeValues := true |} in
  emit_store (inr (index_query_ev client indexName queryRequest));;
  ask_store (λ t, index_query store t client indexName queryRequest).

Definition quote : jsstring := [34%N].

(** [timeout] is [None] when the caller leaves the argument out; the
    default is 180000 ms.  The wait is the timer it sets. *)
Definition createPineconeIndexIfNotExist (client : PineconeClient)
    (indexName : jsstring) (vectorDimension : number) (timeout : option Z)
  : MS unit :=
  let timeout := default 180000%Z timeout in
  store_log (lit "Checking " ++ quote ++ indexName ++ quote ++ lit "...");;
  emit_store (inr (listIndexes_ev client));;
  existingIndexes ← ask_store (λ t, listIndexes store t client);
  if decide (indexName ∈ existingIndexes)
  then store_log (quote ++ indexName ++ quote ++ lit " already exists.")
  else
    store_log (lit "Creating " ++ quote ++ indexName ++ quote ++ lit "...");;
    let createRequest :=
      {| create_name := indexName; create_dimension := vectorDimension;
         create_metric := lit "cosine" |} in
    emit_store (inr (createIndex_ev client createRequest));;
    ask_store (λ t, may_throw (createIndex store t client createRequest));;
    store_log
      (lit "Creating index.... please wait for it to finish initializing.");;
    emit_store (inr (setTimeout_ev timeout)).

(** Vocabulary of the statements about effects: the kinds of events. *)
Definition is_createIndex (e : effect) : bool :=
  match e with
  | inr (createIndex_ev _ _) => true
  | _ => false
  end.

Definition is_setTimeout (e : effect) : bool :=
  match e with
  | inr (setTimeout_ev _) => true
  | _ => false
  end.

Definition is_channel_send (e : event) : bool :=
  match e with
  | channel_send_ev _ _ => true
  | _ => false
  end.

Definition is_index_upsert (e : event) : bool :=
  match e with
  | index_upsert_ev _ => true
  | _ => false
  end.

(** The [k]-th batch of the loop of [upsertVectors]. *)
Definition spec_batch (vectors : list Vector) (k : nat) : list Vector :=
  slice (k * batchSize) (k * batchSize + batchSize) vectors.

(** The progress line of [updatePineconeIndex]. *)
Definition spec_progress_line (position total generated : nat) : jsstring :=
  lit "Processing document " ++ decimal position ++ lit " of " ++ decimal total
    ++ lit ", generated " ++ decimal generated ++ lit " vectors".

(** The texts of the chunks as they are sent to the embedding endpoint. *)
Definition spec_texts (chunks : list Document) : list jsstring :=
  (λ chunk, replace_newlines (pageContent chunk)) <$> chunks.

(** What [updatePineconeIndex] does for one document when nothing fails:
    one embedding request with [texts], the upserts of the batches of
    [vectors] in order, then the progress line. *)
Definition spec_document_events (position total : nat) (texts : list jsstring)
    (vectors : list Vector) : list event :=
  embedDocuments_ev texts
    :: ((λ k, index_upsert_ev (spec_batch vectors k))
          <$> seq 0 (spec_ceil_div (length vectors) 100))
    ++ [console_log_ev (spec_progress_line position total (length vectors))].

(** The same for the documents [docs] in order, [records] giving the
    vectors of each; [position] is the position of the first one, counted
    from 1, and [split] the text splitter. *)
Fixpoint spec_ingestion_events (split : jsstring → list Document)
    (position total : nat) (docs : list Document)
    (records : list (list Vector)) : list event :=
  match docs, records with
  | doc :: docs', vectors :: records' =>
      spec_document_events position total
        (spec_texts (split (pageContent doc))) vectors
      ++ spec_ingestion_events split (position + 1) total docs' records'
  | _, _ => []
  end.

(** ** More example data

    A world whose splitter and embedding endpoint answer as given and whose
    index accepts the first [accepted] upserts only; the two records of a
    document split in two chunks when a single, empty embedding comes
    back; a store that lists an index once it was asked to create one. *)

Definition example_chunk (text : string) : Document :=
  {| pageContent := lit text; doc_metadata := ∅ |}.

Definition example_world_with (chunks : outcome (list Document))
    (embeddings : outcome (list (list number))) (accepted : nat) : world :=
  {| new_OpenAI := λ _ _, None;
     chain_call := λ _ _ _, Returned JNull;
     createDocuments := λ _, chunks;
     new_OpenAIEmbeddings := λ _, None;
     embedDocuments := λ _ _, embeddings;
     index_upsert :=
       λ t _, if decide (length (filter (λ e, is_index_upsert e = true) t)
                         ≤ accepted)
              then None else Some (JStr (lit "quota exceeded")) |}.

Definition example_records : list Vector :=
  [{| vec_id := lit "a.txt_0"; vec_values := Some [];
      vec_metadata :=
        vector_metadata (example_chunk "one") (JStr (lit "a.txt"))
          (lit "http://doc1") |};
   {| vec_id := lit "a.txt_1"; vec_values := None;
      vec_metadata :=
        vector_metadata (example_chunk "two") (JStr (lit "a.txt"))
          (lit "http://doc1") |}].

Definition example_store (indexName : jsstring) : vector_store :=
  {| listIndexes :=
       λ t _, Returned (if existsb is_createIndex t then [indexName] else []);
     createIndex := λ _ _ _, None;
     new_OpenAIEmbeddings_env := None;
     embedQuery := λ _ _, Returned [];
     index_query := λ _ _ _ _, Returned example_response |}.

(** * Properties *)

(** ** The link extractor *)





Lemma match_literal_Some p s r : match_literal p s = Some r → s = p ++ r.
Proof.
  revert s. induction p as [|a p IH]; intros [|b s]; simpl; try congruence.
  destruct (N.eqb_spec a b) as [->|]; [|done].
  intros ->%IH. done.
Qed.

















(** ** Reshaping the response of the vector store *)

Lemma has_property_true k (o : gmap string jsval) :
  has_property k o = true ↔ is_Some (o !! k).
Proof. unfold has_property. apply bool_decide_eq_true. Qed.

Lemma formatPineconeResponse_match_both m md :
  match_metadata m = Some md →
  is_Some (md !! "pageContent") → is_Some (md !! "docLink") →
  formatPineconeResponse_match m =
    {| match_id := match_id m; match_score := match_score m;
       match_values := match_values m;
       match_sparseValues := match_sparseValues m;
       match_metadata :=
         Some (<["docLink" := get md "docLink"]>
                 {["pageContent" := get md "pageContent"]}) |}.
Proof.
  intros Hmd Hp%has_property_true Hd%has_property_true.
  unfold formatPineconeResponse_match. by rewrite Hmd, Hp, Hd.
Qed.

Lemma formatPineconeResponse_match_raw m :
  ¬ (∃ md, match_metadata m = Some md ∧
           is_Some (md !! "pageContent") ∧ is_Some (md !! "docLink")) →
  formatPineconeResponse_match m = m.
Proof.
  intros Hnot. unfold formatPineconeResponse_match.
  destruct (match_metadata m) as [md|] eqn:Hmd; [|done].
  destruct (has_property "pageContent" md) eqn:Hp; [|done].
  destruct (has_property "docLink" md) eqn:Hd; [|done].
  destruct Hnot. exists md. by rewrite <- !has_property_true.
Qed.

Lemma formatPineconeResponse_lookup r ms i m :
  raw_matches r = Some ms → ms !! i = Some m →
  matches (formatPineconeResponse r) ≫= (.!! i)
  = Some (formatPineconeResponse_match m).
Proof.
  intros Hms Hi. unfold formatPineconeResponse. simpl. rewrite Hms. simpl.
  by rewrite list_lookup_fmap, Hi.
Qed.

(** C5. The [i]-th match of the reshaped response comes from the [i]-th raw
    match: when the metadata of the raw match has both a [pageContent] and a
    [docLink] field, the new metadata has these two fields with the raw
    values and no other field; otherwise the match is the raw match. *)
Theorem formatPineconeResponse_reshapes_each_match r ms i m :
  raw_matches r = Some ms → ms !! i = Some m →
  ∃ m', matches (formatPineconeResponse r) ≫= (.!! i) = Some m' ∧
    (∀ md, match_metadata m = Some md →
           is_Some (md !! "pageContent") → is_Some (md !! "docLink") →
           ∃ md', match_metadata m' = Some md' ∧
                  md' !! "pageContent" = md !! "pageContent" ∧
                  md' !! "docLink" = md !! "docLink" ∧
                  ∀ k, k ≠ "pageContent" → k ≠ "docLink" → md' !! k = None) ∧
    (¬ (∃ md, match_metadata m = Some md ∧
              is_Some (md !! "pageContent") ∧ is_Some (md !! "docLink")) →
     m' = m).
Proof.
  intros Hms Hi. exists (formatPineconeResponse_match m).
  split; [by apply (formatPineconeResponse_lookup r ms)|]. split.
  - intros md Hmd Hp Hd.
    rewrite (formatPineconeResponse_match_both m md) by done. simpl.
    eexists. split; [done|].
    destruct Hp as [p Hp], Hd as [d Hd]. unfold get. rewrite Hp, Hd. simpl.
    split; [|split].
    + by rewrite lookup_insert_ne, lookup_singleton_eq.
    + by rewrite lookup_insert_eq.
    + intros k Hkp Hkd.
      by rewrite lookup_insert_ne, lookup_singleton_ne.
  - apply formatPineconeResponse_match_raw.
Qed.

Lemma formatPineconeResponse_match_frame m :
  match_id (formatPineconeResponse_match m) = match_id m ∧
  match_score (formatPineconeResponse_match m) = match_score m ∧
  match_values (formatPineconeResponse_match m) = match_values m ∧
  match_sparseValues (formatPineconeResponse_match m) = match_sparseValues m.
Proof.
  unfold formatPineconeResponse_match.
  destruct (match_metadata m) as [md|]; [|done].
  by destruct (has_property "pageContent" md && has_property "docLink" md).
Qed.

(** C9. Reshaping keeps the namespace, an absent match list stays absent,
    and a present one keeps its length; the [i]-th reshaped match has the
    id, score, values and sparse values of the [i]-th raw match. *)
Theorem formatPineconeResponse_frame r :
  namespace (formatPineconeResponse r) = raw_namespace r ∧
  (raw_matches r = None → matches (formatPineconeResponse r) = None) ∧
  (∀ ms, raw_matches r = Some ms →
     ∃ ms', matches (formatPineconeResponse r) = Some ms' ∧
       length ms' = length ms ∧
       ∀ i m, ms !! i = Some m →
         ∃ m', ms' !! i = Some m' ∧
           match_id m' = match_id m ∧
           match_score m' = match_score m ∧
           match_values m' = match_values m ∧
           match_sparseValues m' = match_sparseValues m).
Proof.
  unfold formatPineconeResponse. simpl. split; [done|]. split.
  - by intros ->.
  - intros ms ->. simpl. eexists. split; [done|]. split.
    + by rewrite length_fmap.
    + intros i m Hi. exists (formatPineconeResponse_match m).
      split; [by rewrite list_lookup_fmap, Hi|].
      apply formatPineconeResponse_match_frame.
Qed.

(** ** The language-model call *)

Lemma concatenatedPageContent_join ms :
  concatenatedPageContent ms = join (lit " ") (spec_pageContent_text <$> ms).
Proof.
  unfold concatenatedPageContent, Array_join. rewrite <- list_fmap_compose.
  f_equal. apply list_fmap_ext. intros _ m _. simpl.
  unfold spec_pageContent_text.
  by destruct (optional_get (match_metadata m) "pageContent").
Qed.

Lemma documentLinks_of_lacking m :
  spec_lacks_docLink m →
  nullish_coalescing (optional_get (match_metadata m) "docLink") (JStr [])
  = JStr [].
Proof.
  unfold spec_lacks_docLink, optional_get, get.
  destruct (match_metadata m) as [md|]; [|done].
  by intros [-> | [-> | ->]].
Qed.

Lemma documentLinks_of_present m md v :
  match_metadata m = Some md → md !! "docLink" = Some v →
  v ≠ JUndefined → v ≠ JNull →
  nullish_coalescing (optional_get (match_metadata m) "docLink") (JStr []) = v.
Proof.
  intros -> Hv ? ?. unfold optional_get, get. rewrite Hv. simpl.
  by destruct v.
Qed.

Lemma queryLanguageModelWithPineconeResponse_no_matches_run
    queryResponse question openAIApiKey t :
  queryResponse ≫= matches = None ∨ queryResponse ≫= matches = Some [] →
  queryLanguageModelWithPineconeResponse queryResponse question openAIApiKey t
  = (Returned None,
     t ++ [console_log_ev (lit "Asking question: " ++ question ++ lit "...");
           console_log_ev
             (lit "Since there are no matches, GPT-3.5 will not be queried.")]).
Proof.
  intros Hzero. unfold queryLanguageModelWithPineconeResponse.
  destruct Hzero as [-> | ->];
    unfold console_log, emit, mbind, M_bind, mret, M_ret;
    by rewrite <- app_assoc.
Qed.

(** The same for a raw response of the vector store without matches, once
    it is reshaped. *)
Lemma queryLanguageModelWithPineconeResponse_no_raw_matches
    pineconeResponse question openAIApiKey t :
  raw_matches pineconeResponse = None ∨ raw_matches pineconeResponse = Some [] →
  queryLanguageModelWithPineconeResponse
    (Some (formatPineconeResponse pineconeResponse)) question openAIApiKey t
  = (Returned None,
     t ++ [console_log_ev (lit "Asking question: " ++ question ++ lit "...");
           console_log_ev
             (lit "Since there are no matches, GPT-3.5 will not be queried.")]).
Proof.
  intros Hzero. apply queryLanguageModelWithPineconeResponse_no_matches_run.
  unfold formatPineconeResponse. simpl. destruct Hzero as [-> | ->]; auto.
Qed.

(** C2. Without matches (no response, no match list, or an empty one) the
    function logs two lines, returns [undefined] without throwing, and the
    completion endpoint is not called. *)
Theorem queryLanguageModelWithPineconeResponse_no_matches
    queryResponse question openAIApiKey t :
  queryResponse ≫= matches = None ∨ queryResponse ≫= matches = Some [] →
  ∃ logged,
    queryLanguageModelWithPineconeResponse queryResponse question openAIApiKey t
    = (Returned None, t ++ logged) ∧
    logged = [console_log_ev (lit "Asking question: " ++ question ++ lit "...");
              console_log_ev
                (lit "Since there are no matches, GPT-3.5 will not be queried.")] ∧
    Forall (λ e, is_chain_call e = false) logged.
Proof.
  intros Hzero. eexists. split; [|split; [reflexivity|]].
  - by apply queryLanguageModelWithPineconeResponse_no_matches_run.
  - by repeat constructor.
Qed.

(** C6. With a non-empty match list, a client that can be constructed and a
    completion call that resolves, the function returns an answer whose
    [documentLinks] has one entry per match, in the order of the matches:
    the empty string where the match has no [docLink], the [docLink]
    otherwise.  The context sent to the completion endpoint is the
    space-joined [pageContent] of the same matches in the same order. *)
Theorem queryLanguageModelWithPineconeResponse_links
    queryResponse question openAIApiKey t m ms text :
  queryResponse ≫= matches = Some (m :: ms) →
  new_OpenAI w (lit "gpt-3.5-turbo-16k") openAIApiKey = None →
  let blob := join (lit " ") (spec_pageContent_text <$> m :: ms) in
  let asked :=
    t ++ [console_log_ev (lit "Asking question: " ++ question ++ lit "...");
          console_log_ev (lit "Found " ++ decimal (length (m :: ms))
                            ++ lit " matches...");
          chain_call_ev blob (instructions ++ LF ++ LF ++ question)] in
  chain_call w asked blob (instructions ++ LF ++ LF ++ question) = Returned text →
  ∃ result,
    queryLanguageModelWithPineconeResponse queryResponse question openAIApiKey t
    = (Returned (Some result),
       asked ++ [console_log_ev (lit "Answer: " ++ ToString text)]) ∧
    answer result = text ∧
    length (documentLinks result) = length (m :: ms) ∧
    ∀ i mi, (m :: ms) !! i = Some mi →
      (spec_lacks_docLink mi → documentLinks result !! i = Some (JStr [])) ∧
      (∀ md v, match_metadata mi = Some md → md !! "docLink" = Some v →
               v ≠ JUndefined → v ≠ JNull →
               documentLinks result !! i = Some v).
Proof.
  intros Hms Hnew blob asked Hcall.
  exists {| answer := text; documentLinks := documentLinks_of (m :: ms) |}.
  split; [|split; [done|split]].
  - unfold queryLanguageModelWithPineconeResponse. rewrite Hms.
    unfold console_log, emit, ask, mbind, M_bind, mret, M_ret.
    rewrite Hnew. cbn [may_throw].
    rewrite concatenatedPageContent_join.
    rewrite <- !app_assoc. cbn [app].
    unfold asked, blob in Hcall. rewrite Hcall.
    unfold asked, blob. by rewrite <- !app_assoc.
  - unfold documentLinks_of. cbn [documentLinks]. by rewrite length_fmap.
  - intros i mi Hi. cbn [documentLinks]. unfold documentLinks_of.
    rewrite list_lookup_fmap, Hi. cbn [fmap option_fmap option_map]. split.
    + intros Hl. by rewrite documentLinks_of_lacking.
    + intros md v Hmd Hv ? ?. by rewrite (documentLinks_of_present mi md v).
Qed.

(** ** Sets and order-preserving deduplication *)

Lemma filter_filter_comm {A} (P Q : A → Prop)
    {P_dec : ∀ x, Decision (P x)} {Q_dec : ∀ x, Decision (Q x)} (l : list A) :
  filter P (filter Q l) = filter Q (filter P l).
Proof. rewrite !list_filter_filter. apply list_filter_iff. tauto. Qed.

Lemma filter_filter_idemp {A} (P : A → Prop) {P_dec : ∀ x, Decision (P x)} (l : list A) :
  filter P (filter P l) = filter P l.
Proof. rewrite list_filter_filter. apply list_filter_iff. tauto. Qed.

Lemma Set_new_from {A} {A_eq_dec : EqDecision A} (acc l : list A) :
  foldl Set_add acc l = acc ++ filter (λ y, y ∉ acc) (spec_dedup l).
Proof.
  revert acc. induction l as [|x l IH]; intros acc; simpl.
  - by rewrite app_nil_r.
  - rewrite IH. unfold Set_add. destruct (decide (x ∈ acc)) as [Hin|Hnin].
    + rewrite filter_cons_False by tauto.
      rewrite list_filter_filter. f_equal. apply list_filter_iff.
      intros y. split; [|tauto]. intros Hy. split; [done|]. by intros ->.
    + rewrite filter_cons_True by done.
      rewrite <- app_assoc. simpl. do 2 f_equal.
      rewrite list_filter_filter. apply list_filter_iff.
      intros y. rewrite elem_of_app, list_elem_of_singleton. tauto.
Qed.

(** Building a set from a list and spreading it again is the
    deduplication of the specification. *)
Lemma Set_new_spec_dedup {A} {A_eq_dec : EqDecision A} (l : list A) :
  Set_new l = spec_dedup l.
Proof.
  unfold Set_new. rewrite Set_new_from. simpl.
  induction (spec_dedup l) as [|y d IH]; [done|].
  rewrite filter_cons_True by apply not_elem_of_nil. by rewrite IH.
Qed.

Lemma spec_dedup_elem_of {A} {A_eq_dec : EqDecision A} (l : list A) x :
  x ∈ spec_dedup l ↔ x ∈ l.
Proof.
  induction l as [|y l IH]; simpl; [done|].
  rewrite !elem_of_cons, list_elem_of_filter, IH.
  destruct (decide (x = y)); tauto.
Qed.

Lemma spec_dedup_NoDup {A} {A_eq_dec : EqDecision A} (l : list A) : NoDup (spec_dedup l).
Proof.
  induction l as [|y l IH]; simpl; constructor.
  - rewrite list_elem_of_filter. tauto.
  - by apply NoDup_filter.
Qed.

Lemma spec_dedup_sublist {A} {A_eq_dec : EqDecision A} (l : list A) :
  spec_dedup l `sublist_of` l.
Proof.
  induction l as [|y l IH]; simpl; [done|].
  apply sublist_skip. etrans; [apply sublist_filter|done].
Qed.

Lemma spec_dedup_drop_copy {A} {A_eq_dec : EqDecision A} (a b : list A) x :
  filter (λ y, y ≠ x) (spec_dedup (a ++ x :: b))
  = filter (λ y, y ≠ x) (spec_dedup (a ++ b)).
Proof.
  induction a as [|z a IH]; simpl.
  - rewrite filter_cons_False by tauto. apply filter_filter_idemp.
  - destruct (decide (z = x)) as [->|Hne].
    + rewrite !(filter_cons_False _ x) by tauto.
      by rewrite !filter_filter_idemp, IH.
    + rewrite !(filter_cons_True _ z) by done.
      by rewrite !(filter_filter_comm (λ y, y ≠ x)), IH.
Qed.

(** The first occurrence wins: a later copy of an element changes
    nothing. *)
Lemma spec_dedup_later_copy {A} {A_eq_dec : EqDecision A} (a b : list A) x :
  x ∈ a → spec_dedup (a ++ x :: b) = spec_dedup (a ++ b).
Proof.
  induction a as [|z a IH]; simpl; [by intros ?%elem_of_nil|].
  destruct (decide (z = x)) as [->|Hne].
  - intros _. by rewrite spec_dedup_drop_copy.
  - intros [?|Hin]%elem_of_cons; [congruence|]. by rewrite IH.
Qed.

Lemma spec_dedup_app {A} {A_eq_dec : EqDecision A} (l k : list A) :
  spec_dedup (l ++ k)
  = spec_dedup l ++ filter (λ y, y ∉ spec_dedup l) (spec_dedup k).
Proof.
  rewrite <- (Set_new_spec_dedup (l ++ k)), <- (Set_new_spec_dedup l).
  unfold Set_new. by rewrite foldl_app, Set_new_from.
Qed.

(** The first occurrence of an element stays, right after the distinct
    elements that precede it. *)
Lemma spec_dedup_first_occurrence {A} {A_eq_dec : EqDecision A}
    (before after : list A) x :
  x ∉ before →
  ∃ rest, spec_dedup (before ++ x :: after) = spec_dedup before ++ x :: rest.
Proof.
  intros Hx. rewrite spec_dedup_app. cbn [spec_dedup].
  rewrite filter_cons_True by (by rewrite spec_dedup_elem_of). eauto.
Qed.

(** ** The command handler *)

Lemma top_documentLinks_spec links :
  top_documentLinks links = take 3 (spec_dedup links).
Proof.
  unfold top_documentLinks, distinctDocumentLinks, slice.
  by rewrite Set_new_spec_dedup, drop_0.
Qed.

Lemma handleReadCommand_answer message question client index t t' result :
  queryPineconeVectorStoreAndQueryLLM client index question t
  = (Returned (Some result), t') →
  handleReadCommand message question client index t
  = (Returned (), t' ++ [channel_send_ev message (reply result)]).
Proof.
  intros Hq. unfold handleReadCommand, try_catch, mbind, M_bind.
  by rewrite Hq.
Qed.

(** C3. The links of the reply are the first three elements of the
    order-preserving deduplication of [documentLinks]: they are distinct,
    they appear in the order of the answer's links, every link of the
    answer is among the distinct ones, and a link that occurred before is
    never taken again.  For the links a, b, a, c, b they are a, b, c.  The
    message sent for an answer lists exactly these links. *)
Theorem handleReadCommand_distinct_top3 :
  (∀ links,
     top_documentLinks links = take 3 (spec_dedup links) ∧
     NoDup (top_documentLinks links) ∧
     top_documentLinks links `sublist_of` links ∧
     length (top_documentLinks links)
     = 3 `min` length (distinctDocumentLinks links) ∧
     ∀ link, link ∈ distinctDocumentLinks links ↔ link ∈ links) ∧
  (∀ before after link,
     link ∈ before →
     top_documentLinks (before ++ link :: after)
     = top_documentLinks (before ++ after)) ∧
  top_documentLinks
    [JStr (lit "a"); JStr (lit "b"); JStr (lit "a"); JStr (lit "c"); JStr (lit "b")]
  = [JStr (lit "a"); JStr (lit "b"); JStr (lit "c")] ∧
  (∀ message question client index t t' result,
     queryPineconeVectorStoreAndQueryLLM client index question t
     = (Returned (Some result), t') →
     handleReadCommand message question client index t
     = (Returned (),
        t' ++ [channel_send_ev message
                 (LF ++ lit "**Answer:**" ++ LF ++ lit " "
                     ++ ToString (answer result) ++ LF
                     ++ lit "**Useful resources:**" ++ LF
                     ++ join LF (imap link_line
                                   (take 3 (spec_dedup (documentLinks result)))))])).
Proof.
  split; [|split; [|split]].
  - intros links. rewrite top_documentLinks_spec.
    unfold distinctDocumentLinks. rewrite Set_new_spec_dedup.
    split; [done|]. split; [|split; [|split]].
    + eapply sublist_NoDup; [apply spec_dedup_NoDup|apply sublist_take].
    + etrans; [apply sublist_take|apply spec_dedup_sublist].
    + by rewrite length_take.
    + intros link. apply spec_dedup_elem_of.
  - intros before after link Hin.
    by rewrite !top_documentLinks_spec, spec_dedup_later_copy.
  - by vm_compute.
  - intros * Hq. rewrite (handleReadCommand_answer _ _ _ _ _ _ _ Hq).
    unfold reply, linksString. by rewrite top_documentLinks_spec.
Qed.

(** C7. When the query returns nothing the handler sends the fixed
    no-result message; when it throws, the handler logs the thrown value
    with [console.error] and sends the fixed error message, which does not
    depend on what was thrown.  The handler itself returns normally in both
    cases. *)
Theorem handleReadCommand_no_result_and_error :
  (∀ message question client index t t',
     queryPineconeVectorStoreAndQueryLLM client index question t
     = (Returned None, t') →
     handleReadCommand message question client index t
     = (Returned (),
        t' ++ [channel_send_ev message (lit "No results found for your query.")])) ∧
  (∀ message question client index t t' error,
     queryPineconeVectorStoreAndQueryLLM client index question t
     = (Thrown error, t') →
     handleReadCommand message question client index t
     = (Returned (),
        t' ++ [console_error_ev (lit "Error:") error;
               channel_send_ev message
                 (lit "An error occurred while processing your request.")])).
Proof.
  split.
  - intros * Hq. unfold handleReadCommand, try_catch, mbind, M_bind.
    by rewrite Hq.
  - intros * Hq. unfold handleReadCommand, try_catch, mbind, M_bind.
    rewrite Hq. unfold console_error, channel_send, emit.
    by rewrite <- app_assoc.
Qed.

(** ** Batched upsert *)

Lemma spec_ceil_div_0 b : 0 < b → spec_ceil_div 0 b = 0.
Proof. intros Hb. unfold spec_ceil_div. apply Nat.div_small. lia. Qed.

Lemma spec_ceil_div_small a b : 0 < a ≤ b → spec_ceil_div a b = 1.
Proof.
  intros Ha. unfold spec_ceil_div.
  symmetry. apply (Nat.div_unique _ _ _ (a - 1)); lia.
Qed.

Lemma spec_ceil_div_step a b : 0 < b → spec_ceil_div (a + b) b = S (spec_ceil_div a b).
Proof.
  intros Hb. unfold spec_ceil_div.
  replace (a + b + (b - 1)) with (a + (b - 1) + 1 * b) by lia.
  rewrite Nat.div_add by lia. lia.
Qed.

(** [spec_ceil_div a b] is the least [n] with [a <= n * b]. *)
Lemma spec_ceil_div_least a b n :
  0 < b → (spec_ceil_div a b ≤ n ↔ a ≤ n * b).
Proof.
  intros Hb. unfold spec_ceil_div.
  pose proof (Nat.div_mod_eq (a + (b - 1)) b) as Hdm.
  pose proof (Nat.mod_upper_bound (a + (b - 1)) b ltac:(lia)) as Hlt.
  split; intros Hn; nia.
Qed.

Lemma upsertVectors_from_accepted vectors :
  (∀ t batch, index_upsert w t batch = None) →
  ∀ n i t, length vectors - i = n →
  ∃ batches,
    upsertVectors_from vectors i t
    = (Returned (), t ++ (index_upsert_ev <$> batches)) ∧
    length batches = spec_ceil_div (length vectors - i) batchSize ∧
    Forall (λ batch, 0 < length batch ≤ batchSize) batches ∧
    (∀ k batch, batches !! k = Some batch → S k < length batches →
                length batch = batchSize) ∧
    concat batches = drop i vectors.
Proof.
  intros Hok n. induction n as [n IH] using lt_wf_ind. intros i t Hn.
  simp upsertVectors_from.
  destruct (decide (i < length vectors)) as [Hlt|Hge];
    cbn [upsertVectors_from_unfold_clause_1].
  - destruct (IH (length vectors - (i + batchSize))
                ltac:(unfold batchSize; lia) (i + batchSize)
                (t ++ [index_upsert_ev (slice i (i + batchSize) vectors)])
                eq_refl)
      as (batches & Hrun & Hlen & Hall & Hfull & Hcat).
    exists (slice i (i + batchSize) vectors :: batches).
    assert (length (slice i (i + batchSize) vectors)
            = batchSize `min` (length vectors - i)) as Hslice.
    { unfold slice. rewrite length_take, length_drop. lia. }
    split; [|split; [|split; [|split]]].
    + unfold emit, ask, mbind, M_bind. rewrite Hok. cbn [may_throw].
      rewrite Hrun. by rewrite <- app_assoc.
    + cbn [length]. rewrite Hlen.
      destruct (decide (length vectors - i ≤ batchSize)) as [Hle|Hgt].
      * replace (length vectors - (i + batchSize)) with 0 by lia.
        rewrite spec_ceil_div_0, spec_ceil_div_small;
          [done|unfold batchSize in *; lia..].
      * replace (length vectors - i)
          with (length vectors - (i + batchSize) + batchSize) by lia.
        rewrite spec_ceil_div_step; [done|unfold batchSize; lia].
    + constructor; [|done]. rewrite Hslice. unfold batchSize in *. lia.
    + intros [|k] batch Hk Hlast; cbn in Hk, Hlast.
      * injection Hk as <-. rewrite Hslice.
        destruct batches as [|b bs]; [cbn in Hlast; lia|].
        assert (¬ length vectors - (i + batchSize) ≤ 0 * batchSize) as Hpos.
        { rewrite <- spec_ceil_div_least by (unfold batchSize; lia).
          rewrite <- Hlen. cbn. lia. }
        unfold batchSize in *. lia.
      * apply (Hfull k); [done|lia].
    + cbn [concat]. rewrite Hcat. unfold slice.
      replace (i + batchSize - i) with batchSize by lia.
      rewrite <- (take_drop batchSize (drop i vectors)) at 2.
      by rewrite drop_drop.
  - exists []. split; [by rewrite app_nil_r|].
    replace (length vectors - i) with 0 by lia.
    rewrite drop_ge by lia. rewrite spec_ceil_div_0 by (unfold batchSize; lia).
    by repeat split.
Qed.

(** C4. When the index accepts every upsert, [upsertVectors] returns after
    [ceil(L / 100)] upsert calls, issued one after the other; each call
    carries between 1 and 100 vectors, every call but the last carries
    exactly 100, and the batches in issue order make up the input list. *)
Theorem upsertVectors_batches vectors t :
  (∀ t' batch, index_upsert w t' batch = None) →
  ∃ batches,
    upsertVectors vectors t = (Returned (), t ++ (index_upsert_ev <$> batches)) ∧
    length batches = spec_ceil_div (length vectors) 100 ∧
    Forall (λ batch, 0 < length batch ≤ 100) batches ∧
    (∀ k batch, batches !! k = Some batch → S k < length batches →
                length batch = 100) ∧
    concat batches = vectors.
Proof.
  intros Hok.
  destruct (upsertVectors_from_accepted vectors Hok _ 0 t eq_refl)
    as (batches & Hrun & Hlen & Hall & Hfull & Hcat).
  exists batches. rewrite Nat.sub_0_r in Hlen. by rewrite drop_0 in Hcat.
Qed.

(** When the index rejects a batch, the loop stops there: the rejection is
    thrown and no later batch is issued. *)
Lemma upsertVectors_rejected vectors t error :
  vectors ≠ [] →
  index_upsert w (t ++ [index_upsert_ev (slice 0 batchSize vectors)])
    (slice 0 batchSize vectors) = Some error →
  upsertVectors vectors t
  = (Thrown error, t ++ [index_upsert_ev (slice 0 batchSize vectors)]).
Proof.
  intros Hne Hrej. unfold upsertVectors. simp upsertVectors_from.
  destruct (decide (0 < length vectors)) as [Hlt|Hge];
    cbn [upsertVectors_from_unfold_clause_1].
  - unfold emit, ask, mbind, M_bind. cbn [Nat.add]. by rewrite Hrej.
  - destruct vectors; [done|]. cbn in Hge. lia.
Qed.

(** ** Vector records *)

Lemma vector_metadata_lookup chunk txtPath documentLink :
  vector_metadata chunk txtPath documentLink !! "loc"
  = Some (JSON_stringify (get (doc_metadata chunk) "loc")) ∧
  vector_metadata chunk txtPath documentLink !! "pageContent"
  = Some (JStr (pageContent chunk)) ∧
  vector_metadata chunk txtPath documentLink !! "txtPath" = Some txtPath ∧
  vector_metadata chunk txtPath documentLink !! "docLink"
  = Some (JStr documentLink) ∧
  ∀ k, k ≠ "loc" → k ≠ "pageContent" → k ≠ "txtPath" → k ≠ "docLink" →
       vector_metadata chunk txtPath documentLink !! k = doc_metadata chunk !! k.
Proof.
  unfold vector_metadata. repeat split.
  - by rewrite !lookup_insert_ne, lookup_insert_eq by done.
  - by rewrite !lookup_insert_ne, lookup_insert_eq by done.
  - by rewrite lookup_insert_ne, lookup_insert_eq by done.
  - by rewrite lookup_insert_eq.
  - intros k ? ? ? ?. by rewrite !lookup_insert_ne by done.
Qed.

(** C8. When the splitter, the embeddings client and the embedding call
    succeed, [processDocument] returns one record per chunk.  The record of
    chunk [i] has the id [<source>_<i>], the [i]-th embedding as values, and
    a metadata object with the stringified location under [loc], the text
    of the chunk under [pageContent], the source under [txtPath] and the
    link extracted from the document under [docLink]; the other fields of
    the chunk's metadata are kept. *)
Theorem processDocument_vector_records doc openAIApiKey t chunks embeddingsArrays :
  createDocuments w (pageContent doc) = Returned chunks →
  new_OpenAIEmbeddings w openAIApiKey = None →
  let texts := (λ chunk, replace_newlines (pageContent chunk)) <$> chunks in
  embedDocuments w (t ++ [embedDocuments_ev texts]) texts
  = Returned embeddingsArrays →
  ∃ vectors,
    processDocument doc openAIApiKey t
    = (Returned vectors, t ++ [embedDocuments_ev texts]) ∧
    length vectors = length chunks ∧
    ∀ i chunk, chunks !! i = Some chunk →
      ∃ v, vectors !! i = Some v ∧
        vec_id v
        = ToString (get (doc_metadata doc) "source") ++ lit "_" ++ decimal i ∧
        (∀ source, doc_metadata doc !! "source" = Some (JStr source) →
                   vec_id v = source ++ lit "_" ++ decimal i) ∧
        vec_values v = embeddingsArrays !! i ∧
        vec_metadata v !! "loc"
        = Some (JSON_stringify (get (doc_metadata chunk) "loc")) ∧
        vec_metadata v !! "pageContent" = Some (JStr (pageContent chunk)) ∧
        vec_metadata v !! "txtPath" = Some (get (doc_metadata doc) "source") ∧
        vec_metadata v !! "docLink"
        = Some (JStr (extractDocumentLink (pageContent doc))) ∧
        ∀ k, k ≠ "loc" → k ≠ "pageContent" → k ≠ "txtPath" → k ≠ "docLink" →
             vec_metadata v !! k = doc_metadata chunk !! k.
Proof.
  intros Hsplit Hnew texts Hembed. eexists. split; [|split].
  - unfold processDocument, emit, ask, mbind, M_bind, mret, M_ret.
    rewrite Hsplit, Hnew. cbn [may_throw]. fold texts. by rewrite Hembed.
  - by rewrite length_imap.
  - intros i chunk Hi. eexists. split.
    { by rewrite list_lookup_imap, Hi. }
    cbn [vec_id vec_values vec_metadata].
    destruct (vector_metadata_lookup chunk (get (doc_metadata doc) "source")
                (extractDocumentLink (pageContent doc)))
      as (Hloc & Hpage & Hpath & Hlink & Hrest).
    repeat split; try done.
    intros source Hsource. unfold get. by rewrite Hsource.
Qed.

(** ** Empty links *)

Lemma link_line_empty index :
  link_line index (JStr []) = lit "**Link " ++ decimal (index + 1) ++ lit ":** <>".
Proof. unfold link_line. cbn [ToString]. by rewrite app_nil_l. Qed.

Lemma distinctDocumentLinks_empty_link before after :
  JStr [] ∉ before →
  distinctDocumentLinks (before ++ JStr [] :: after)
    !! length (distinctDocumentLinks before) = Some (JStr []).
Proof.
  intros Hx. unfold distinctDocumentLinks. rewrite !Set_new_spec_dedup.
  destruct (spec_dedup_first_occurrence before after (JStr []) Hx) as [rest ->].
  by apply list_lookup_middle.
Qed.

Lemma top_documentLinks_empty_link before after :
  JStr [] ∉ before →
  length (distinctDocumentLinks before) < 3 →
  top_documentLinks (before ++ JStr [] :: after)
    !! length (distinctDocumentLinks before) = Some (JStr []).
Proof.
  intros Hx Hn. unfold top_documentLinks, slice. rewrite drop_0.
  rewrite lookup_take_lt by done. by apply distinctDocumentLinks_empty_link.
Qed.

(** C10. A match without a [docLink] contributes the empty string to the
    links of the answer, at its own position.  Nothing filters it out: the
    first empty link of the answer is one of the distinct links, right
    after the distinct links that precede it, and it is among the links of
    the reply exactly when fewer than three distinct links precede it.
    The message that [handleReadCommand] sends for such an answer then has
    the line [**Link N:** <>] at that position, [N] being the position
    counted from 1.  For the links "", a, "", b, c the reply lists "", a
    and b. *)
Theorem handleReadCommand_keeps_empty_link :
  (∀ ms i m, ms !! i = Some m → spec_lacks_docLink m →
     documentLinks_of ms !! i = Some (JStr [])) ∧
  (∀ links, JStr [] ∈ links →
     JStr [] ∈ distinctDocumentLinks links ∧ NoDup (distinctDocumentLinks links)) ∧
  (∀ before after, JStr [] ∉ before →
     distinctDocumentLinks (before ++ JStr [] :: after)
       !! length (distinctDocumentLinks before) = Some (JStr []) ∧
     (JStr [] ∈ top_documentLinks (before ++ JStr [] :: after)
      ↔ length (distinctDocumentLinks before) < 3) ∧
     (length (distinctDocumentLinks before) < 3 →
      top_documentLinks (before ++ JStr [] :: after)
        !! length (distinctDocumentLinks before) = Some (JStr []))) ∧
  (∀ links i, top_documentLinks links !! i = Some (JStr []) →
     i < 3 ∧
     imap link_line (top_documentLinks links) !! i
     = Some (lit "**Link " ++ decimal (i + 1) ++ lit ":** <>")) ∧
  (∀ message question client index t t' result before after,
     queryPineconeVectorStoreAndQueryLLM client index question t
     = (Returned (Some result), t') →
     documentLinks result = before ++ JStr [] :: after →
     JStr [] ∉ before →
     length (distinctDocumentLinks before) < 3 →
     ∃ lines,
       handleReadCommand message question client index t
       = (Returned (),
          t' ++ [channel_send_ev message
                   (LF ++ lit "**Answer:**" ++ LF ++ lit " "
                       ++ ToString (answer result) ++ LF
                       ++ lit "**Useful resources:**" ++ LF
                       ++ join LF lines)]) ∧
       length lines
       = 3 `min` length (distinctDocumentLinks (documentLinks result)) ∧
       lines !! length (distinctDocumentLinks before)
       = Some (lit "**Link "
                 ++ decimal (length (distinctDocumentLinks before) + 1)
                 ++ lit ":** <>")) ∧
  linksString [JStr []; JStr (lit "a"); JStr []; JStr (lit "b"); JStr (lit "c")]
  = lit "**Link 1:** <>" ++ LF ++ lit "**Link 2:** <a>" ++ LF
      ++ lit "**Link 3:** <b>".
Proof.
  split; [|split; [|split; [|split; [|split]]]].
  - intros ms i m Hi Hm. unfold documentLinks_of.
    rewrite list_lookup_fmap, Hi. simpl.
    by rewrite documentLinks_of_lacking.
  - intros links Hin. unfold distinctDocumentLinks.
    rewrite Set_new_spec_dedup. split.
    + by apply spec_dedup_elem_of.
    + apply spec_dedup_NoDup.
  - intros before after Hx.
    pose proof (distinctDocumentLinks_empty_link before after Hx) as Hat.
    split; [done|]. split; [split|].
    + unfold top_documentLinks, slice. rewrite drop_0.
      intros (i & Hi & Hlt)%elem_of_take.
      assert (NoDup (distinctDocumentLinks (before ++ JStr [] :: after)))
        as Hnd.
      { unfold distinctDocumentLinks. rewrite Set_new_spec_dedup.
        apply spec_dedup_NoDup. }
      by rewrite <- (NoDup_lookup _ _ _ _ Hnd Hi Hat).
    + intros Hn. apply list_elem_of_lookup. eexists.
      by apply top_documentLinks_empty_link.
    + by apply top_documentLinks_empty_link.
  - intros links i Hi. split.
    + apply lookup_lt_Some in Hi. rewrite top_documentLinks_spec in Hi.
      rewrite length_take in Hi. lia.
    + rewrite list_lookup_imap, Hi. simpl. by rewrite link_line_empty.
  - intros message question client index t t' result before after
      Hq Hlinks Hx Hn.
    exists (imap link_line (top_documentLinks (documentLinks result))).
    split; [|split].
    + by rewrite (handleReadCommand_answer _ _ _ _ _ _ _ Hq).
    + rewrite length_imap, top_documentLinks_spec, length_take.
      unfold distinctDocumentLinks. by rewrite Set_new_spec_dedup.
    + rewrite list_lookup_imap, Hlinks.
      rewrite top_documentLinks_empty_link by done. simpl.
      by rewrite link_line_empty.
  - by vm_compute.
Qed.

(** * Further properties of the code *)

(** ** The extracted link *)

Lemma greedy_forallb f s : forallb f (greedy f s) = true.
Proof.
  induction s as [|c s IH]; simpl; [done|].
  destruct (f c) eqn:Hc; simpl; [|done]. by rewrite Hc.
Qed.

Lemma greedy_maximal f s :
  ∃ r, s = greedy f s ++ r ∧
       (r = [] ∨ ∃ c r', r = c :: r' ∧ f c = false).
Proof.
  induction s as [|c s (r & Hr & Hstop)]; simpl.
  - exists []. by split; [|left].
  - destruct (f c) eqn:Hc.
    + exists r. split; [simpl; by rewrite <- Hr|done].
    + exists (c :: s). split; [done|]. right. by exists c, s.
Qed.

Lemma match_here_capture s capture :
  match_here s = Some capture →
  ∃ r, s = lit "Link: " ++ capture ++ r ∧ capture ≠ [] ∧
       forallb dot capture = true ∧
       (r = [] ∨ ∃ c r', r = c :: r' ∧ LineTerminator c = true).
Proof.
  unfold match_here.
  destruct (match_literal _ s) as [rest|] eqn:Hm; [|done].
  apply match_literal_Some in Hm.
  destruct (greedy_maximal dot rest) as (r & Hr & Hstop).
  pose proof (greedy_forallb dot rest) as Hdot.
  destruct (greedy dot rest) as [|c cs]; [done|].
  intros [= <-]. exists r. split; [by rewrite <- Hr|].
  split; [done|]. split; [done|].
  destruct Hstop as [->|(c' & r' & -> & Hc')]; [by left|].
  right. exists c', r'. split; [done|].
  unfold dot in Hc'. by destruct (LineTerminator c').
Qed.

Lemma regexp_match_capture s capture :
  regexp_match s = Some capture →
  ∃ a r, s = a ++ lit "Link: " ++ capture ++ r ∧ capture ≠ [] ∧
         forallb dot capture = true ∧
         (r = [] ∨ ∃ c r', r = c :: r' ∧ LineTerminator c = true).
Proof.
  induction s as [|c s IH]; cbn [regexp_match].
  - destruct (match_here []) eqn:Hm; [|done].
    intros [= ->]. apply match_here_capture in Hm as (r & ? & ? & ? & ?).
    by exists [], r.
  - destruct (match_here (c :: s)) eqn:Hm.
    + intros [= ->]. apply match_here_capture in Hm as (r & ? & ? & ? & ?).
      by exists [], r.
    + intros (a & r & -> & ? & ? & ?)%IH. by exists (c :: a), r.
Qed.

(** X1. The extracted link never contains a line terminator.  When it is
    not empty, it stands in the text right after an occurrence of [Link: ]
    and runs to the end of that line: what follows it is the end of the
    text or a line terminator. *)
Theorem extractDocumentLink_to_end_of_line text :
  forallb dot (extractDocumentLink text) = true ∧
  (extractDocumentLink text ≠ [] →
   ∃ a r, text = a ++ lit "Link: " ++ extractDocumentLink text ++ r ∧
          (r = [] ∨ ∃ c r', r = c :: r' ∧ LineTerminator c = true)).
Proof.
  unfold extractDocumentLink.
  destruct (regexp_match text) as [capture|] eqn:Hm; [|done].
  apply regexp_match_capture in Hm as (a & r & Htext & _ & Hdot & Hend).
  split; [done|]. intros _. by exists a, r.
Qed.

(** X2. [replace(/\n/g, " ")] keeps the length of the text and every
    character other than LF in its place, puts a space where an LF was,
    and so leaves no LF; a text without LF is unchanged. *)
Theorem replace_newlines_pointwise (s : list N) :
  length (replace_newlines s) = length s ∧
  (∀ i c, s !! i = Some c →
          replace_newlines s !! i = Some (if (c =? 10)%N then 32%N else c)) ∧
  (10%N ∉ replace_newlines s) ∧
  ((10%N ∉ s) → replace_newlines s = s).
Proof.
  unfold replace_newlines, jsstring.
  split; [by rewrite length_fmap|]. split; [|split].
  - intros i c Hi. by rewrite list_lookup_fmap, Hi.
  - intros (c & Hc & _)%list_elem_of_fmap.
    destruct (N.eqb_spec c 10); [done|]. by subst c.
  - intros Hs. induction s as [|c s IH]; [done|]. rewrite fmap_cons.
    apply not_elem_of_cons in Hs as [Hc Hs].
    destruct (N.eqb_spec c 10) as [->|]; [done|]. f_equal. by apply IH.
Qed.

(** ** Reshaping and the language-model call together *)

Lemma formatPineconeResponse_match_reads m k :
  k = "pageContent" ∨ k = "docLink" →
  optional_get (match_metadata (formatPineconeResponse_match m)) k
  = optional_get (match_metadata m) k.
Proof.
  intros Hk. unfold formatPineconeResponse_match.
  destruct (match_metadata m) as [md|] eqn:Hmd; [|by rewrite Hmd].
  destruct (has_property "pageContent" md && has_property "docLink" md);
    [|by rewrite Hmd].
  simpl. unfold get.
  destruct Hk as [-> | ->].
  - by rewrite lookup_insert_ne, lookup_singleton_eq.
  - by rewrite lookup_insert_eq.
Qed.

Lemma get_reshaped_metadata page link :
  get (<["docLink" := link]> {["pageContent" := page]}) "docLink" = link ∧
  get (<["docLink" := link]> {["pageContent" := page]}) "pageContent" = page.
Proof.
  unfold get. split.
  - by rewrite lookup_insert_eq.
  - rewrite lookup_insert_ne by done. by rewrite lookup_singleton_eq.
Qed.

(** X3. Reshaping a match twice is the same as reshaping it once. *)
Theorem formatPineconeResponse_match_idempotent m :
  formatPineconeResponse_match (formatPineconeResponse_match m)
  = formatPineconeResponse_match m.
Proof.
  destruct (match_metadata m) as [md|] eqn:Hmd.
  - destruct (has_property "pageContent" md && has_property "docLink" md)
      eqn:Hboth.
    + apply andb_prop in Hboth as [Hp%has_property_true Hd%has_property_true].
      rewrite (formatPineconeResponse_match_both m md) by done.
      erewrite formatPineconeResponse_match_both; [|done|..].
      * cbn [match_id match_score match_values match_sparseValues].
        by rewrite (proj1 (get_reshaped_metadata _ _)),
          (proj2 (get_reshaped_metadata _ _)).
      * rewrite lookup_insert_ne by done. rewrite lookup_singleton_eq.
        by eexists.
      * rewrite lookup_insert_eq. by eexists.
    + assert (formatPineconeResponse_match m = m) as Hraw; [|by rewrite !Hraw].
      unfold formatPineconeResponse_match. by rewrite Hmd, Hboth.
  - assert (formatPineconeResponse_match m = m) as Hraw; [|by rewrite !Hraw].
    unfold formatPineconeResponse_match. by rewrite Hmd.
Qed.

Lemma documentLinks_of_reshaped ms :
  documentLinks_of (formatPineconeResponse_match <$> ms) = documentLinks_of ms.
Proof.
  unfold documentLinks_of. rewrite <- list_fmap_compose.
  apply list_fmap_ext. intros _ m _. simpl.
  rewrite formatPineconeResponse_match_reads; auto.
Qed.

Lemma concatenatedPageContent_reshaped ms :
  concatenatedPageContent (formatPineconeResponse_match <$> ms)
  = concatenatedPageContent ms.
Proof.
  unfold concatenatedPageContent. rewrite <- list_fmap_compose.
  f_equal. apply list_fmap_ext. intros _ m _. simpl.
  rewrite formatPineconeResponse_match_reads; auto.
Qed.

(** X4. The language-model step cannot tell a reshaped response from the
    raw one: on the reshaped response it logs, calls, returns and throws
    exactly as on the raw matches. *)
Theorem queryLanguageModelWithPineconeResponse_reshaped
    pineconeResponse question openAIApiKey t :
  queryLanguageModelWithPineconeResponse
    (Some (formatPineconeResponse pineconeResponse)) question openAIApiKey t
  = queryLanguageModelWithPineconeResponse
      (Some {| matches := raw_matches pineconeResponse;
               namespace := raw_namespace pineconeResponse |})
      question openAIApiKey t.
Proof.
  unfold queryLanguageModelWithPineconeResponse, formatPineconeResponse.
  cbn [mbind option_bind matches].
  destruct (raw_matches pineconeResponse) as [[|m ms]|]; try done.
  pose proof (documentLinks_of_reshaped (m :: ms)) as Hl.
  pose proof (concatenatedPageContent_reshaped (m :: ms)) as Hc.
  rewrite fmap_cons in Hl, Hc.
  cbn [fmap option_fmap option_map list_fmap length].
  by rewrite Hl, Hc, length_fmap.
Qed.

(** ** Every outcome of the language-model step *)

(** X5. Whatever the services do, the step ends in one of four ways, and
    each way tells what happened: it returns nothing only without matches
    and then calls nothing; it returns an answer only with matches, after
    exactly one completion call, with one link per match; it throws only
    what the constructor of the client threw (before any completion call)
    or what the single completion call was rejected with. *)
Theorem queryLanguageModelWithPineconeResponse_outcomes
    queryResponse question openAIApiKey t res t' :
  queryLanguageModelWithPineconeResponse queryResponse question openAIApiKey t
  = (res, t') →
  ∃ added, t' = t ++ added ∧
    match res with
    | Returned None =>
        (queryResponse ≫= matches = None ∨ queryResponse ≫= matches = Some []) ∧
        filter (λ e, is_chain_call e = true) added = []
    | Returned (Some result) =>
        ∃ ms, queryResponse ≫= matches = Some ms ∧ ms ≠ [] ∧
              length (documentLinks result) = length ms ∧
              length (filter (λ e, is_chain_call e = true) added) = 1
    | Thrown error =>
        ∃ ms, queryResponse ≫= matches = Some ms ∧ ms ≠ [] ∧
          ((new_OpenAI w (lit "gpt-3.5-turbo-16k") openAIApiKey = Some error ∧
            filter (λ e, is_chain_call e = true) added = []) ∨
           (new_OpenAI w (lit "gpt-3.5-turbo-16k") openAIApiKey = None ∧
            length (filter (λ e, is_chain_call e = true) added) = 1 ∧
            ∃ t1, chain_call w t1 (concatenatedPageContent ms)
                    (instructions ++ LF ++ LF ++ question) = Thrown error))
    end.
Proof.
  unfold queryLanguageModelWithPineconeResponse.
  destruct (queryResponse ≫= matches) as [[|m ms]|] eqn:Hms.
  - unfold console_log, emit, mbind, M_bind, mret, M_ret.
    intros [= <- <-]. eexists. split; [by rewrite <- app_assoc|]. auto.
  - unfold console_log, emit, ask, mbind, M_bind, mret, M_ret.
    destruct (new_OpenAI w (lit "gpt-3.5-turbo-16k") openAIApiKey)
      as [e|] eqn:Hnew; cbn [may_throw].
    + intros [= <- <-]. eexists. split; [by rewrite <- app_assoc|].
      exists (m :: ms). split; [done|]. split; [done|]. by left.
    + destruct (chain_call w _ _ _) as [text|e] eqn:Hcall.
      * intros [= <- <-]. eexists.
        split; [by rewrite <- !app_assoc|].
        exists (m :: ms). split; [done|]. split; [done|].
        split; [|done]. exact (length_fmap _ (m :: ms)).
      * intros [= <- <-]. eexists.
        split; [by rewrite <- !app_assoc|].
        exists (m :: ms). split; [done|]. split; [done|]. right.
        split; [done|]. split; [done|]. by eexists.
  - unfold console_log, emit, mbind, M_bind, mret, M_ret.
    intros [= <- <-]. eexists. split; [by rewrite <- app_assoc|]. auto.
Qed.

(** ** The handler in every case *)

(** X6. Whatever the query does (answer, nothing, or a throw), the handler
    returns normally and sends exactly one message, to the channel of the
    message it was called with; it writes to [console.error] exactly when
    the query threw. *)
Theorem handleReadCommand_one_message message question client index t res t' :
  queryPineconeVectorStoreAndQueryLLM client index question t = (res, t') →
  ∃ added content,
    handleReadCommand message question client index t
    = (Returned (), t' ++ added) ∧
    filter (λ e, is_channel_send e = true) added
    = [channel_send_ev message content] ∧
    match res with
    | Returned _ => added = [channel_send_ev message content]
    | Thrown error =>
        added = [console_error_ev (lit "Error:") error;
                 channel_send_ev message content]
    end.
Proof.
  intros Hq. unfold handleReadCommand, try_catch, mbind, M_bind.
  rewrite Hq. destruct res as [[result|]|error].
  - by exists [channel_send_ev message (reply result)], (reply result).
  - by exists [channel_send_ev message (lit "No results found for your query.")],
      (lit "No results found for your query.").
  - exists [console_error_ev (lit "Error:") error;
            channel_send_ev message
              (lit "An error occurred while processing your request.")],
      (lit "An error occurred while processing your request.").
    unfold console_error, channel_send, emit, mbind, M_bind.
    by rewrite <- app_assoc.
Qed.


(** ** Record ids *)

Lemma lit_inj s1 s2 : lit s1 = lit s2 → s1 = s2.
Proof.
  unfold lit. intros Heq.
  rewrite <- (String.string_of_list_ascii_of_string s1),
    <- (String.string_of_list_ascii_of_string s2).
  f_equal. revert Heq. generalize (String.list_ascii_of_string s2).
  induction (String.list_ascii_of_string s1) as [|a l IH]; intros [|b k];
    simpl; try done.
  intros [= Hab Hlk]. f_equal; [|by apply IH].
  by rewrite <- (ascii_N_embedding a), <- (ascii_N_embedding b), Hab.
Qed.

Lemma decimal_inj n m : decimal n = decimal m → n = m.
Proof.
  unfold decimal. intros Heq%lit_inj.
  assert (∀ k, Nat.of_uint <$> NilZero.uint_of_string
                 (NilZero.string_of_uint (Nat.to_uint k)) = Some k) as Hparse.
  { intros k. destruct (Nat.to_uint k) as [| | | | | | | | | |] eqn:Hk;
      try (rewrite <- Hk, NilZero.usu by (rewrite Hk; discriminate);
           simpl; by rewrite DecimalNat.Unsigned.of_to).
    apply (f_equal Nat.of_uint) in Hk.
    rewrite DecimalNat.Unsigned.of_to in Hk. by subst k. }
  pose proof (Hparse n) as Hn. rewrite Heq, Hparse in Hn. by injection Hn.
Qed.

Lemma digits_no_underscore d : 95%N ∉ lit (NilEmpty.string_of_uint d).
Proof.
  induction d; cbn; rewrite ?not_elem_of_cons; try split; try done;
    apply not_elem_of_nil.
Qed.

Lemma decimal_no_underscore n : 95%N ∉ decimal n.
Proof.
  unfold decimal, NilZero.string_of_uint.
  destruct (Nat.to_uint n) eqn:Hn; rewrite <- ?Hn;
    try apply digits_no_underscore.
  cbn. rewrite not_elem_of_cons. split; [done|apply not_elem_of_nil].
Qed.

(** The last occurrence of a character splits a string in one way only. *)
Lemma app_pivot_inj {A} (a b x y : list A) c :
  c ∉ x → c ∉ y → a ++ c :: x = b ++ c :: y → a = b ∧ x = y.
Proof.
  intros Hx Hy. revert b. induction a as [|a0 a IH]; intros [|b0 b]; simpl.
  - by intros [= ->].
  - intros [= -> ->]. destruct Hx. rewrite elem_of_app, elem_of_cons. auto.
  - intros [= -> <-]. destruct Hy. rewrite elem_of_app, elem_of_cons. auto.
  - intros [= -> Hrest]. destruct (IH _ Hrest) as [-> ->]. done.
Qed.

Lemma record_id_inj (source1 source2 : jsstring) i j :
  source1 ++ lit "_" ++ decimal i = source2 ++ lit "_" ++ decimal j →
  source1 = source2 ∧ i = j.
Proof.
  change (lit "_") with [95%N]. cbn [app].
  intros [-> Hd]%app_pivot_inj; try apply decimal_no_underscore.
  split; [done|]. by apply decimal_inj.
Qed.

Lemma processDocument_vector_records_run doc openAIApiKey t chunks embeddingsArrays :
  createDocuments w (pageContent doc) = Returned chunks →
  new_OpenAIEmbeddings w openAIApiKey = None →
  embedDocuments w
    (t ++ [embedDocuments_ev
             ((λ chunk, replace_newlines (pageContent chunk)) <$> chunks)])
    ((λ chunk, replace_newlines (pageContent chunk)) <$> chunks)
  = Returned embeddingsArrays →
  ∃ vectors,
    processDocument doc openAIApiKey t
    = (Returned vectors,
       t ++ [embedDocuments_ev
               ((λ chunk, replace_newlines (pageContent chunk)) <$> chunks)]) ∧
    length vectors = length chunks.
Proof.
  intros Hsplit Hnew Hembed. eexists. split.
  - unfold processDocument, emit, ask, mbind, M_bind, mret, M_ret.
    rewrite Hsplit, Hnew. cbn [may_throw]. by rewrite Hembed.
  - by rewrite length_imap.
Qed.

(** What a successful [processDocument] has done. *)
Lemma processDocument_Returned doc openAIApiKey t vectors t' :
  processDocument doc openAIApiKey t = (Returned vectors, t') →
  ∃ chunks embeddingsArrays,
    createDocuments w (pageContent doc) = Returned chunks ∧
    new_OpenAIEmbeddings w openAIApiKey = None ∧
    embedDocuments w
      (t ++ [embedDocuments_ev
               ((λ chunk, replace_newlines (pageContent chunk)) <$> chunks)])
      ((λ chunk, replace_newlines (pageContent chunk)) <$> chunks)
    = Returned embeddingsArrays ∧
    t' = t ++ [embedDocuments_ev
                 ((λ chunk, replace_newlines (pageContent chunk)) <$> chunks)] ∧
    vectors
    = imap (λ idx chunk,
              {| vec_id := ToString (get (doc_metadata doc) "source")
                             ++ lit "_" ++ decimal idx;
                 vec_values := embeddingsArrays !! idx;
                 vec_metadata :=
                   vector_metadata chunk (get (doc_metadata doc) "source")
                     (extractDocumentLink (pageContent doc)) |})
        chunks.
Proof.
  unfold processDocument, emit, ask, mbind, M_bind, mret, M_ret.
  destruct (createDocuments w (pageContent doc)) as [chunks|e]; [|done].
  destruct (new_OpenAIEmbeddings w openAIApiKey) as [e|]; [done|].
  cbn [may_throw].
  destruct (embedDocuments w _ _) as [embeddingsArrays|e] eqn:Hembed; [|done].
  intros [= <- <-]. by exists chunks, embeddingsArrays.
Qed.

(** X8. The records that [processDocument] returns for one document have
    pairwise distinct ids. *)
Theorem processDocument_ids_distinct doc openAIApiKey t vectors t' :
  processDocument doc openAIApiKey t = (Returned vectors, t') →
  NoDup (vec_id <$> vectors).
Proof.
  intros (chunks & embs & _ & _ & _ & _ & ->)%processDocument_Returned.
  apply NoDup_alt. intros i j id.
  rewrite !list_lookup_fmap, !list_lookup_imap.
  destruct (chunks !! i) as [ci|]; [|done].
  destruct (chunks !! j) as [cj|]; [|done].
  cbn. intros [= <-] [= Hid]. by apply record_id_inj in Hid as [_ ?].
Qed.

(** X9. Across documents whose [source] is a string, an id determines the
    source and the chunk index: two returned records with the same id come
    from the same source and the same position. *)
Theorem processDocument_id_determines_source_and_index
    doc1 doc2 key1 key2 t1 t2 vectors1 vectors2 t1' t2' source1 source2 i j v1 v2 :
  processDocument doc1 key1 t1 = (Returned vectors1, t1') →
  processDocument doc2 key2 t2 = (Returned vectors2, t2') →
  doc_metadata doc1 !! "source" = Some (JStr source1) →
  doc_metadata doc2 !! "source" = Some (JStr source2) →
  vectors1 !! i = Some v1 → vectors2 !! j = Some v2 →
  vec_id v1 = vec_id v2 →
  source1 = source2 ∧ i = j.
Proof.
  intros (chunks1 & embs1 & _ & _ & _ & _ & ->)%processDocument_Returned.
  intros (chunks2 & embs2 & _ & _ & _ & _ & ->)%processDocument_Returned.
  intros Hs1 Hs2. rewrite !list_lookup_imap. unfold get. rewrite Hs1, Hs2.
  destruct (chunks1 !! i) as [c1|]; [|done].
  destruct (chunks2 !! j) as [c2|]; [|done].
  cbn. intros [= <-] [= <-]. cbn. apply record_id_inj.
Qed.

(** X10. A failure of [processDocument] is the failure of the splitter, of
    the constructor of the embeddings client, or of the embedding call.  In
    the first two cases nothing was requested; in the third only the
    embedding request was made. *)
Theorem processDocument_failures doc openAIApiKey t error t' :
  processDocument doc openAIApiKey t = (Thrown error, t') →
  (createDocuments w (pageContent doc) = Thrown error ∧ t' = t) ∨
  (∃ chunks, createDocuments w (pageContent doc) = Returned chunks ∧
     (new_OpenAIEmbeddings w openAIApiKey = Some error ∧ t' = t ∨
      new_OpenAIEmbeddings w openAIApiKey = None ∧
      t' = t ++ [embedDocuments_ev
                   ((λ chunk, replace_newlines (pageContent chunk)) <$> chunks)] ∧
      embedDocuments w t'
        ((λ chunk, replace_newlines (pageContent chunk)) <$> chunks)
      = Thrown error)).
Proof.
  unfold processDocument, emit, ask, mbind, M_bind, mret, M_ret.
  destruct (createDocuments w (pageContent doc)) as [chunks|e].
  - destruct (new_OpenAIEmbeddings w openAIApiKey) as [e|]; cbn [may_throw].
    + intros [= <- <-]. right. exists chunks. auto.
    + destruct (embedDocuments w _ _) as [embs|e] eqn:Hembed; [done|].
      intros [= <- <-]. right. exists chunks. split; [done|]. by right.
  - intros [= <- <-]. by left.
Qed.

(** X11. When the embedding endpoint answers with fewer arrays than there
    are chunks, [processDocument] does not throw: it returns one record per
    chunk, record [i] carries [embeddingsArrays[i]], and the records past
    the end of the answer, of which there is at least one, have no
    values. *)
Theorem processDocument_missing_embeddings
    doc openAIApiKey t chunks embeddingsArrays :
  createDocuments w (pageContent doc) = Returned chunks →
  new_OpenAIEmbeddings w openAIApiKey = None →
  embedDocuments w (t ++ [embedDocuments_ev (spec_texts chunks)])
    (spec_texts chunks)
  = Returned embeddingsArrays →
  length embeddingsArrays < length chunks →
  ∃ vectors,
    processDocument doc openAIApiKey t
    = (Returned vectors, t ++ [embedDocuments_ev (spec_texts chunks)]) ∧
    length vectors = length chunks ∧
    (∀ i, i < length chunks →
       ∃ v, vectors !! i = Some v ∧
            vec_id v
            = ToString (get (doc_metadata doc) "source") ++ lit "_"
                ++ decimal i ∧
            vec_values v = embeddingsArrays !! i ∧
            (length embeddingsArrays ≤ i → vec_values v = None)) ∧
    ∃ v, vectors !! length embeddingsArrays = Some v ∧ vec_values v = None.
Proof.
  intros Hsplit Hnew Hembed Hshort.
  assert (∀ i, i < length chunks →
            ∃ v, imap (λ idx chunk,
                         {| vec_id := ToString (get (doc_metadata doc) "source")
                                        ++ lit "_" ++ decimal idx;
                            vec_values := embeddingsArrays !! idx;
                            vec_metadata :=
                              vector_metadata chunk
                                (get (doc_metadata doc) "source")
                                (extractDocumentLink (pageContent doc)) |})
                   chunks !! i = Some v ∧
                 vec_id v
                 = ToString (get (doc_metadata doc) "source") ++ lit "_"
                     ++ decimal i ∧
                 vec_values v = embeddingsArrays !! i ∧
                 (length embeddingsArrays ≤ i → vec_values v = None))
    as Hrecords.
  { intros i [chunk Hi]%lookup_lt_is_Some_2. eexists. split.
    { by rewrite list_lookup_imap, Hi. }
    cbn [vec_id vec_values]. split; [done|]. split; [done|].
    apply lookup_ge_None_2. }
  eexists. split; [|split; [|split]].
  - unfold processDocument, emit, ask, mbind, M_bind, mret, M_ret.
    rewrite Hsplit, Hnew. cbn [may_throw]. fold (spec_texts chunks).
    by rewrite Hembed.
  - by rewrite length_imap.
  - exact Hrecords.
  - destruct (Hrecords _ Hshort) as (v & Hv & _ & _ & Hnone).
    exists v. split; [done|]. by apply Hnone.
Qed.

(** ** The upsert loop against any index *)

Lemma upsertVectors_from_any vectors :
  ∀ m k t res t',
    length vectors - k * batchSize = m →
    k ≤ spec_ceil_div (length vectors) batchSize →
    upsertVectors_from vectors (k * batchSize) t = (res, t') →
    ∃ n, t' = t ++ ((λ j, index_upsert_ev (spec_batch vectors j)) <$> seq k n) ∧
         k + n ≤ spec_ceil_div (length vectors) batchSize ∧
         (∀ j, j < n → S j < n ∨ res = Returned () →
            index_upsert w
              (t ++ ((λ j, index_upsert_ev (spec_batch vectors j))
                       <$> seq k (S j)))
              (spec_batch vectors (k + j)) = None) ∧
         match res with
         | Returned _ => k + n = spec_ceil_div (length vectors) batchSize
         | Thrown error =>
             ∃ j, k + n = S j ∧
                  index_upsert w t' (spec_batch vectors j) = Some error
         end.
Proof.
  assert (0 < batchSize) as Hpos by (unfold batchSize; lia).
  intros m. induction m as [m IH] using lt_wf_ind. intros k t res t' Hm Hk.
  simp upsertVectors_from.
  destruct (decide (k * batchSize < length vectors)) as [Hlt|Hge];
    cbn [upsertVectors_from_unfold_clause_1].
  - assert (S k ≤ spec_ceil_div (length vectors) batchSize) as HSk.
    { apply Nat.nle_gt. rewrite spec_ceil_div_least by done. lia. }
    unfold emit, ask, mbind, M_bind. fold (spec_batch vectors k).
    destruct (index_upsert w _ _) as [e|] eqn:Hup; cbn [may_throw].
    + intros [= <- <-]. exists 1. split; [done|]. split; [lia|]. split.
      * intros j Hj [?|?]; [lia|done].
      * exists k. split; [lia|done].
    + replace (k * batchSize + batchSize) with (S k * batchSize) by lia.
      intros Hrun.
      destruct (IH (length vectors - S k * batchSize) ltac:(lia) (S k) _ _ _
                  eq_refl HSk Hrun) as (n & -> & Hn & Hacc & Hres).
      exists (S n). split; [by rewrite <- app_assoc|]. split; [lia|]. split.
      * intros [|j] Hj Hcond.
        -- by rewrite Nat.add_0_r.
        -- replace (k + S j) with (S k + j) by lia.
           assert (S j < n ∨ res = Returned ()) as Hcond'
             by (destruct Hcond; [left; lia|by right]).
           rewrite <- (Hacc j ltac:(lia) Hcond').
           f_equal. cbn [seq fmap list_fmap]. by rewrite <- app_assoc.
      * destruct res as [[]|e]; [lia|].
        destruct Hres as (j & Hj & Hrej). exists j. split; [lia|done].
  - intros [= <- <-]. exists 0. split; [by rewrite app_nil_r|].
    assert (spec_ceil_div (length vectors) batchSize ≤ k) as Hle.
    { rewrite spec_ceil_div_least by done. lia. }
    split; [lia|]. split; [|lia]. intros j Hj. lia.
Qed.

(** X12. Against any index, accepting or not: the calls issued are the
    batches [vectors.slice(100 k, 100 k + 100)] for [k = 0, 1, ...] in this
    order, never more than [ceil(L / 100)], and every call but the last
    issued one was accepted.  The function returns only after all
    [ceil(L / 100)] calls were issued and each was accepted; it throws only
    what the last issued call was rejected with, nothing being issued
    after a rejection. *)
Theorem upsertVectors_any_index vectors t res t' :
  upsertVectors vectors t = (res, t') →
  ∃ n, t' = t ++ ((λ k, index_upsert_ev (spec_batch vectors k)) <$> seq 0 n) ∧
       n ≤ spec_ceil_div (length vectors) 100 ∧
       (∀ j, j < n → S j < n ∨ res = Returned () →
          index_upsert w
            (t ++ ((λ k, index_upsert_ev (spec_batch vectors k))
                     <$> seq 0 (S j)))
            (spec_batch vectors j) = None) ∧
       match res with
       | Returned _ => n = spec_ceil_div (length vectors) 100
       | Thrown error =>
           ∃ k, n = S k ∧ index_upsert w t' (spec_batch vectors k) = Some error
       end.
Proof.
  unfold upsertVectors. intros Hrun.
  apply (upsertVectors_from_any vectors _ 0 t res t' eq_refl) in Hrun; [|lia].
  done.
Qed.

(** ** The ingestion driver *)

Lemma upsertVectors_all_accepted vectors t :
  (∀ t batch, index_upsert w t batch = None) →
  upsertVectors vectors t
  = (Returned (),
     t ++ ((λ k, index_upsert_ev (spec_batch vectors k))
             <$> seq 0 (spec_ceil_div (length vectors) 100))).
Proof.
  intros Hup. unfold upsertVectors.
  destruct (upsertVectors_from vectors 0 t) as [res t'] eqn:Hrun.
  apply (upsertVectors_from_any vectors _ 0 t res t' eq_refl) in Hrun; [|lia].
  destruct Hrun as (n & -> & _ & _ & Hres). destruct res as [[]|error].
  - cbn in Hres. by rewrite Hres.
  - destruct Hres as (j & _ & Hrej). by rewrite Hup in Hrej.
Qed.

Lemma updatePineconeIndex_from_all_succeed
    openAIApiKey (split : jsstring → list Document) total docs :
  (∀ text, createDocuments w text = Returned (split text)) →
  new_OpenAIEmbeddings w openAIApiKey = None →
  (∀ t texts, ∃ embeddingsArrays,
     embedDocuments w t texts = Returned embeddingsArrays) →
  (∀ t batch, index_upsert w t batch = None) →
  ∀ i t, ∃ records,
    length records = length docs ∧
    updatePineconeIndex_from openAIApiKey total i docs t
    = (Returned (),
       t ++ spec_ingestion_events split (i + 1) total docs records) ∧
    ∀ j doc vectors, docs !! j = Some doc → records !! j = Some vectors →
      length vectors = length (split (pageContent doc)) ∧
      processDocument doc openAIApiKey
        (t ++ spec_ingestion_events split (i + 1) total
                (take j docs) (take j records))
      = (Returned vectors,
         (t ++ spec_ingestion_events split (i + 1) total
                 (take j docs) (take j records))
           ++ [embedDocuments_ev (spec_texts (split (pageContent doc)))]).
Proof.
  intros Hsplit Hnew Hembed Hup.
  induction docs as [|doc docs IH]; intros i t.
  - exists []. split; [done|]. split; [by rewrite app_nil_r|].
    intros j doc vectors Hdoc. by rewrite lookup_nil in Hdoc.
  - cbn [updatePineconeIndex_from].
    destruct (Hembed (t ++ [embedDocuments_ev
                              (spec_texts (split (pageContent doc)))])
                (spec_texts (split (pageContent doc)))) as [embs Hembs].
    destruct (processDocument_vector_records_run doc openAIApiKey t
                (split (pageContent doc)) embs (Hsplit _) Hnew Hembs)
      as (vectors & Hrun & Hlen).
    fold (spec_texts (split (pageContent doc))) in Hrun.
    destruct (IH (i + 1)
                (t ++ spec_document_events (i + 1) total
                        (spec_texts (split (pageContent doc))) vectors))
      as (records & Hrecords & Hrest & Hdocs).
    exists (vectors :: records). split; [by rewrite !length_cons, Hrecords|].
    split.
    + unfold mbind, M_bind at 1. rewrite Hrun.
      unfold mbind, M_bind at 1. rewrite (upsertVectors_all_accepted _ _ Hup).
      unfold mbind, M_bind at 1. unfold console_log, emit.
      fold (spec_progress_line (i + 1) total (length vectors)).
      cbn [spec_ingestion_events]. rewrite app_assoc, <- Hrest.
      f_equal. unfold spec_document_events.
      by rewrite <- !app_assoc.
    + intros [|j] doc' vectors' Hdoc Hvec.
      * cbn in Hdoc, Hvec. injection Hdoc as <-. injection Hvec as <-.
        cbn [take spec_ingestion_events]. rewrite app_nil_r. done.
      * cbn in Hdoc, Hvec. cbn [take spec_ingestion_events].
        rewrite app_assoc. by apply Hdocs.
Qed.

(** X13. [updatePineconeIndex] first takes the handle of the index; when
    [client.Index] throws, it throws the same and nothing is processed.
    Otherwise, when the splitter, the embeddings and the index all
    succeed, it returns after handling the documents one after the other in
    input order, and what it does is exactly this, document by document:
    one embedding request with the newline-free texts of the chunks, then
    the upserts of the batches [vectors.slice(100 k, 100 k + 100)] of the
    records that [processDocument] returned for the document,
    [ceil(n / 100)] of them for a document with [n] chunks, then the
    progress line [Processing document i of N, generated n vectors] with
    [i] counted from 1. *)
Theorem updatePineconeIndex_all_succeed
    client openAIApiKey indexName (split : jsstring → list Document) docs t :
  (∀ error, client_Index client indexName = Some error →
     updatePineconeIndex client openAIApiKey indexName docs t
     = (Thrown error, t)) ∧
  (client_Index client indexName = None →
   (∀ text, createDocuments w text = Returned (split text)) →
   new_OpenAIEmbeddings w openAIApiKey = None →
   (∀ t texts, ∃ embeddingsArrays,
      embedDocuments w t texts = Returned embeddingsArrays) →
   (∀ t batch, index_upsert w t batch = None) →
   ∃ records,
     length records = length docs ∧
     updatePineconeIndex client openAIApiKey indexName docs t
     = (Returned (),
        t ++ spec_ingestion_events split 1 (length docs) docs records) ∧
     ∀ i doc vectors, docs !! i = Some doc → records !! i = Some vectors →
       length vectors = length (split (pageContent doc)) ∧
       processDocument doc openAIApiKey
         (t ++ spec_ingestion_events split 1 (length docs)
                 (take i docs) (take i records))
       = (Returned vectors,
          (t ++ spec_ingestion_events split 1 (length docs)
                  (take i docs) (take i records))
            ++ [embedDocuments_ev (spec_texts (split (pageContent doc)))])).
Proof.
  split.
  - intros error Hindex. unfold updatePineconeIndex, ask, mbind, M_bind.
    by rewrite Hindex.
  - intros Hindex Hsplit Hnew Hembed Hup.
    unfold updatePineconeIndex, ask, mbind, M_bind. rewrite Hindex.
    cbn [may_throw].
    apply (updatePineconeIndex_from_all_succeed openAIApiKey split (length docs)
             docs Hsplit Hnew Hembed Hup 0 t).
Qed.

(** ** Creating an index if it does not exist *)

Lemma app_two {A} (l : list A) a b : l ++ [a; b] = (l ++ [a]) ++ [b].
Proof. by rewrite <- app_assoc. Qed.

Lemma app_four {A} (l : list A) a b c d :
  l ++ [a; b; c; d] = (((l ++ [a]) ++ [b]) ++ [c]) ++ [d].
Proof. by rewrite <- !app_assoc. Qed.

Lemma createPineconeIndexIfNotExist_listed
    client indexName vectorDimension timeout (t : list effect) existingIndexes :
  listIndexes store
    (t ++ [inl (console_log_ev
                  (lit "Checking " ++ quote ++ indexName ++ quote ++ lit "..."));
           inr (listIndexes_ev client)]) client
  = Returned existingIndexes →
  indexName ∈ existingIndexes →
  createPineconeIndexIfNotExist client indexName vectorDimension timeout t
  = (Returned (),
     t ++ [inl (console_log_ev
                  (lit "Checking " ++ quote ++ indexName ++ quote ++ lit "..."));
           inr (listIndexes_ev client);
           inl (console_log_ev
                  (quote ++ indexName ++ quote ++ lit " already exists."))]).
Proof.
  rewrite app_two. intros Hlist Hin.
  unfold createPineconeIndexIfNotExist, store_log, emit_store, ask_store,
    mbind, MS_bind.
  rewrite Hlist, decide_True by done. by rewrite <- !app_assoc.
Qed.

Lemma createPineconeIndexIfNotExist_absent
    client indexName vectorDimension timeout (t : list effect) existingIndexes :
  listIndexes store
    (t ++ [inl (console_log_ev
                  (lit "Checking " ++ quote ++ indexName ++ quote ++ lit "..."));
           inr (listIndexes_ev client)]) client
  = Returned existingIndexes →
  indexName ∉ existingIndexes →
  createIndex store
    (t ++ [inl (console_log_ev
                  (lit "Checking " ++ quote ++ indexName ++ quote ++ lit "..."));
           inr (listIndexes_ev client);
           inl (console_log_ev
                  (lit "Creating " ++ quote ++ indexName ++ quote ++ lit "..."));
           inr (createIndex_ev client
                  {| create_name := indexName;
                     create_dimension := vectorDimension;
                     create_metric := lit "cosine" |})])
    client
    {| create_name := indexName; create_dimension := vectorDimension;
       create_metric := lit "cosine" |}
  = None →
  createPineconeIndexIfNotExist client indexName vectorDimension timeout t
  = (Returned (),
     t ++ [inl (console_log_ev
                  (lit "Checking " ++ quote ++ indexName ++ quote ++ lit "..."));
           inr (listIndexes_ev client);
           inl (console_log_ev
                  (lit "Creating " ++ quote ++ indexName ++ quote ++ lit "..."));
           inr (createIndex_ev client
                  {| create_name := indexName;
                     create_dimension := vectorDimension;
                     create_metric := lit "cosine" |});
           inl (console_log_ev
                  (lit "Creating index.... please wait for it to finish initializing."));
           inr (setTimeout_ev (default 180000%Z timeout))]).
Proof.
  rewrite app_two, app_four. intros Hlist Hnin Hcreate.
  unfold createPineconeIndexIfNotExist, store_log, emit_store, ask_store,
    mbind, MS_bind.
  rewrite Hlist, decide_False by done. rewrite Hcreate. cbn [may_throw].
  by rewrite <- !app_assoc.
Qed.

(** X14. With the list of indexes in hand: when the name is listed, the
    function only logs that the index exists, with no create request and no
    wait; when it is not listed and the create request is accepted, it has
    asked for an index of that name and dimension with the cosine metric
    and then set a timer of [timeout] ms, 180000 when no timeout is
    given. *)
Theorem createPineconeIndexIfNotExist_creates_iff_absent
    client indexName vectorDimension timeout (t : list effect) existingIndexes :
  let checked : list effect :=
    t ++ [inl (console_log_ev
                 (lit "Checking " ++ quote ++ indexName ++ quote ++ lit "..."));
          inr (listIndexes_ev client)] in
  let createRequest :=
    {| create_name := indexName; create_dimension := vectorDimension;
       create_metric := lit "cosine" |} in
  let asked : list effect :=
    checked ++ [inl (console_log_ev
                       (lit "Creating " ++ quote ++ indexName ++ quote
                          ++ lit "..."));
                inr (createIndex_ev client createRequest)] in
  listIndexes store checked client = Returned existingIndexes →
  (indexName ∈ existingIndexes →
   createPineconeIndexIfNotExist client indexName vectorDimension timeout t
   = (Returned (),
      checked ++ [inl (console_log_ev
                         (quote ++ indexName ++ quote
                            ++ lit " already exists."))])) ∧
  (indexName ∉ existingIndexes →
   createIndex store asked client createRequest = None →
   createPineconeIndexIfNotExist client indexName vectorDimension timeout t
   = (Returned (),
      asked ++ [inl (console_log_ev
                       (lit "Creating index.... please wait for it to finish initializing."));
                inr (setTimeout_ev (default 180000%Z timeout))])).
Proof.
  intros checked createRequest asked Hlist. split.
  - intros Hin.
    rewrite (createPineconeIndexIfNotExist_listed _ _ _ _ _ _ Hlist Hin).
    unfold checked. by rewrite <- app_assoc.
  - intros Hnin Hcreate. unfold asked, checked in Hcreate.
    rewrite <- app_assoc in Hcreate.
    rewrite (createPineconeIndexIfNotExist_absent _ _ _ _ _ _ Hlist Hnin Hcreate).
    unfold asked, checked. by rewrite <- !app_assoc.
Qed.

(** X15. In every case the function issues at most one create request, for
    the given name and dimension with the cosine metric, and sets a timer
    only after that request was accepted: a call that throws has set no
    timer, and a call that returns has either created and waited or done
    neither. *)
Theorem createPineconeIndexIfNotExist_outcomes
    client indexName vectorDimension timeout t res t' :
  createPineconeIndexIfNotExist client indexName vectorDimension timeout t
  = (res, t') →
  let created :=
    inr (createIndex_ev client
           {| create_name := indexName; create_dimension := vectorDimension;
              create_metric := lit "cosine" |}) : effect in
  ∃ added, t' = t ++ added ∧
    match res with
    | Returned _ =>
        (filter (λ e, is_createIndex e = true) added = [] ∧
         filter (λ e, is_setTimeout e = true) added = []) ∨
        (filter (λ e, is_createIndex e = true) added = [created] ∧
         filter (λ e, is_setTimeout e = true) added
         = [inr (setTimeout_ev (default 180000%Z timeout))])
    | Thrown _ =>
        filter (λ e, is_setTimeout e = true) added = [] ∧
        (filter (λ e, is_createIndex e = true) added = [] ∨
         filter (λ e, is_createIndex e = true) added = [created])
    end.
Proof.
  unfold createPineconeIndexIfNotExist, store_log, emit_store, ask_store,
    mbind, MS_bind.
  destruct (listIndexes store _ client) as [existing|e].
  - destruct (decide (indexName ∈ existing)).
    + intros [= <- <-]. eexists. split; [by rewrite <- !app_assoc|].
      by left.
    + destruct (createIndex store _ client _) as [e|]; cbn [may_throw].
      * intros [= <- <-]. eexists. split; [by rewrite <- !app_assoc|].
        split; [done|]. by right.
      * intros [= <- <-]. eexists. split; [by rewrite <- !app_assoc|].
        by right.
  - intros [= <- <-]. eexists. split; [by rewrite <- !app_assoc|].
    split; [done|]. by left.
Qed.

(** X16. Create-if-absent is idempotent against a store that lists the
    indexes it was asked to create: two calls in a row, starting from a
    store without the index, issue one create request and set one timer;
    the second call only finds the index. *)
Theorem createPineconeIndexIfNotExist_twice
    client indexName vectorDimension timeout (t : list effect) existingIndexes :
  let checked : list effect :=
    t ++ [inl (console_log_ev
                 (lit "Checking " ++ quote ++ indexName ++ quote ++ lit "..."));
          inr (listIndexes_ev client)] in
  let createRequest :=
    {| create_name := indexName; create_dimension := vectorDimension;
       create_metric := lit "cosine" |} in
  let asked : list effect :=
    checked ++ [inl (console_log_ev
                       (lit "Creating " ++ quote ++ indexName ++ quote
                          ++ lit "..."));
                inr (createIndex_ev client createRequest)] in
  listIndexes store checked client = Returned existingIndexes →
  indexName ∉ existingIndexes →
  createIndex store asked client createRequest = None →
  (∀ t1, inr (createIndex_ev client createRequest) ∈ t1 →
         ∃ listed, listIndexes store t1 client = Returned listed ∧
                   indexName ∈ listed) →
  ∃ added,
    (createPineconeIndexIfNotExist client indexName vectorDimension timeout;;
     createPineconeIndexIfNotExist client indexName vectorDimension timeout) t
    = (Returned (), t ++ added) ∧
    filter (λ e, is_createIndex e = true) added
    = [inr (createIndex_ev client createRequest)] ∧
    filter (λ e, is_setTimeout e = true) added
    = [inr (setTimeout_ev (default 180000%Z timeout))].
Proof.
  intros checked createRequest asked Hlist Hnin Hcreate Hlists.
  unfold asked, checked in Hcreate. rewrite <- app_assoc in Hcreate.
  pose proof (createPineconeIndexIfNotExist_absent
                client indexName vectorDimension timeout t existingIndexes
                Hlist Hnin Hcreate) as Hfirst.
  match type of Hfirst with _ = (_, ?t1) =>
    destruct (Hlists
                (t1 ++ [inl (console_log_ev
                               (lit "Checking " ++ quote ++ indexName ++ quote
                                  ++ lit "..."));
                        inr (listIndexes_ev client)]))
      as (listed & Hlisted & Hin);
    [rewrite !elem_of_app, !elem_of_cons; auto 10|];
    pose proof (createPineconeIndexIfNotExist_listed
                  client indexName vectorDimension timeout t1 listed
                  Hlisted Hin) as Hsecond
  end.
  eexists. split; [|split].
  - unfold mbind at 1, MS_bind at 1. rewrite Hfirst. cbn beta iota.
    rewrite Hsecond. by rewrite <- !app_assoc.
  - done.
  - done.
Qed.

(** ** Querying the vector store *)

(** X17. [queryPineconeVectorStore] logs once, takes the handle of the
    index, embeds the question once and sends one query for the 10 nearest
    vectors of the embedding, with metadata and values included; it
    returns exactly what the index answers.  It throws what [client.Index],
    the constructor of the embeddings client, the embedding call or the
    query failed with; when [client.Index] or the constructor throws
    nothing is requested, and when the embedding fails no query is
    sent. *)
Theorem queryPineconeVectorStore_outcomes client indexName question t res t' :
  queryPineconeVectorStore client indexName question t = (res, t') →
  ∃ added, t' = t ++ added ∧
    match res with
    | Returned pineconeResponse =>
        ∃ queryEmbedding,
          client_Index client indexName = None ∧
          new_OpenAIEmbeddings_env store = None ∧
          embedQuery store
            (t ++ [inl (console_log_ev (lit "Querying Pinecone vector store..."));
                   inr (embedQuery_ev question)]) question
          = Returned queryEmbedding ∧
          index_query store t' client indexName
            {| topK := 10; vector := queryEmbedding;
               includeMetadata := true; includeValues := true |}
          = Returned pineconeResponse ∧
          added
          = [inl (console_log_ev (lit "Querying Pinecone vector store..."));
             inr (embedQuery_ev question);
             inr (index_query_ev client indexName
                    {| topK := 10; vector := queryEmbedding;
                       includeMetadata := true; includeValues := true |})]
    | Thrown error =>
        (client_Index client indexName = Some error ∧
         added
         = [inl (console_log_ev (lit "Querying Pinecone vector store..."))]) ∨
        (client_Index client indexName = None ∧
         new_OpenAIEmbeddings_env store = Some error ∧
         added
         = [inl (console_log_ev (lit "Querying Pinecone vector store..."))]) ∨
        (client_Index client indexName = None ∧
         new_OpenAIEmbeddings_env store = None ∧
         embedQuery store t' question = Thrown error ∧
         added
         = [inl (console_log_ev (lit "Querying Pinecone vector store..."));
            inr (embedQuery_ev question)]) ∨
        (∃ queryEmbedding,
           client_Index client indexName = None ∧
           new_OpenAIEmbeddings_env store = None ∧
           embedQuery store
             (t ++ [inl (console_log_ev
                           (lit "Querying Pinecone vector store..."));
                    inr (embedQuery_ev question)]) question
           = Returned queryEmbedding ∧
           index_query store t' client indexName
             {| topK := 10; vector := queryEmbedding;
                includeMetadata := true; includeValues := true |}
           = Thrown error ∧
           added
           = [inl (console_log_ev (lit "Querying Pinecone vector store..."));
              inr (embedQuery_ev question);
              inr (index_query_ev client indexName
                     {| topK := 10; vector := queryEmbedding;
                        includeMetadata := true; includeValues := true |})])
    end.
Proof.
  unfold queryPineconeVectorStore, store_log, emit_store, ask_store,
    mbind, MS_bind.
  destruct (client_Index client indexName) as [e|]; cbn [may_throw].
  { intros [= <- <-]. eexists. split; [done|]. by left. }
  destruct (new_OpenAIEmbeddings_env store) as [e|]; cbn [may_throw].
  { intros [= <- <-]. eexists. split; [done|]. right. by left. }
  rewrite <- !app_assoc. cbn [app].
  destruct (embedQuery store _ question) as [queryEmbedding|e] eqn:Hembed.
  - destruct (index_query store _ client indexName _) as [r|e] eqn:Hquery.
    + intros [= <- <-]. eexists. split; [by rewrite <- !app_assoc|].
      exists queryEmbedding. do 3 (split; [done|]).
      split; [|done]. rewrite <- Hquery. by rewrite <- !app_assoc.
    + intros [= <- <-]. eexists. split; [by rewrite <- !app_assoc|].
      do 3 right. exists queryEmbedding. do 3 (split; [done|]).
      split; [|done]. rewrite <- Hquery. by rewrite <- !app_assoc.
  - intros [= <- <-]. eexists. split; [done|].
    right. right. left. done.
Qed.


(** ** The context blob *)



End Model.

(** * The properties at concrete inputs

    Numbers and the other opaque values are natural numbers here, printed
    in decimal; the client and the message are units. *)


Lemma queryLanguageModelWithPineconeResponse_no_matches_witness :
  ∃ logged,
    queryLanguageModelWithPineconeResponse decimal
      (example_world (Message := ()) (JStr (lit "Yes.")) [1; 2] JNull)
      (Some {| matches := Some []; namespace := None |})
      (lit "What is Morpho?") (lit "sk-key") []
    = (Returned None, [] ++ logged) ∧
    logged = [console_log_ev (lit "Asking question: " ++ lit "What is Morpho?"
                                ++ lit "...");
              console_log_ev
                (lit "Since there are no matches, GPT-3.5 will not be queried.")] ∧
    Forall (λ e, is_chain_call e = false) logged.
Proof.
  apply (queryLanguageModelWithPineconeResponse_no_matches decimal).
  right. reflexivity.
Defined.

Lemma handleReadCommand_distinct_top3_witness :
  handleReadCommand (number := nat) decimal
    (λ _ _ _ t,
       (Returned
          (Some {| answer := JStr (lit "Yes.");
                   documentLinks :=
                     [JStr (lit "a"); JStr (lit "b"); JStr (lit "a");
                      JStr (lit "c"); JStr (lit "b")] |}), t))
    () (lit "What is Morpho?") () (lit "index") []
  = (Returned (),
     [channel_send_ev ()
        (LF ++ lit "**Answer:**" ++ LF ++ lit " Yes." ++ LF
            ++ lit "**Useful resources:**" ++ LF
            ++ lit "**Link 1:** <a>" ++ LF ++ lit "**Link 2:** <b>" ++ LF
            ++ lit "**Link 3:** <c>")]).
Proof.
  etrans.
  - apply (proj2 (proj2 (proj2 (handleReadCommand_distinct_top3 decimal _)))).
    reflexivity.
  - reflexivity.
Defined.

Lemma handleReadCommand_no_result_and_error_witness :
  handleReadCommand (number := nat) decimal (λ _ _ _ t, (Returned None, t))
    () (lit "What is Morpho?") () (lit "index") []
  = (Returned (),
     [channel_send_ev () (lit "No results found for your query.")]) ∧
  handleReadCommand (number := nat) decimal
    (λ _ _ _ t, (Thrown (JStr (lit "PineconeError: 503")), t))
    () (lit "What is Morpho?") () (lit "index") []
  = (Returned (),
     [console_error_ev (lit "Error:") (JStr (lit "PineconeError: 503"));
      channel_send_ev ()
        (lit "An error occurred while processing your request.")]).
Proof.
  split.
  - etrans.
    + apply (proj1 (handleReadCommand_no_result_and_error decimal _)).
      reflexivity.
    + reflexivity.
  - etrans.
    + apply (proj2 (handleReadCommand_no_result_and_error decimal _)).
      reflexivity.
    + reflexivity.
Defined.

Lemma upsertVectors_batches_witness :
  ∃ batches,
    upsertVectors (example_world (other := nat) (Message := ()) JNull [1; 2] JNull)
      (replicate 250 example_vector) []
    = (Returned (), [] ++ (index_upsert_ev <$> batches)) ∧
    length batches = 3 ∧
    Forall (λ batch, 0 < length batch ≤ 100) batches ∧
    (∀ k batch, batches !! k = Some batch → S k < length batches →
                length batch = 100) ∧
    concat batches = replicate 250 example_vector.
Proof.
  apply (upsertVectors_batches
           (example_world (other := nat) (Message := ()) JNull [1; 2] JNull)
           (replicate 250 example_vector) []).
  reflexivity.
Defined.

Lemma formatPineconeResponse_reshapes_each_match_witness :
  (∃ m' md',
     matches (formatPineconeResponse (number := nat) (other := nat)
                example_response) ≫= (.!! 0) = Some m' ∧
     match_metadata m' = Some md' ∧
     md' !! "pageContent" = Some (JStr (lit "Morpho is a lending protocol.")) ∧
     md' !! "docLink" = Some (JStr (lit "https://docs/a")) ∧
     md' !! "txtPath" = None) ∧
  (∃ m',
     matches (formatPineconeResponse (number := nat) (other := nat)
                example_response) ≫= (.!! 1) = Some m' ∧
     m' = example_match "b.txt_3" (Some example_raw_metadata)).
Proof.
  split.
  - destruct (formatPineconeResponse_reshapes_each_match
                (number := nat) (other := nat) example_response _ 0 _
                eq_refl eq_refl) as (m' & Hm' & Hboth & _).
    destruct (Hboth example_metadata eq_refl)
      as (md' & Hmd' & Hpage & Hlink & Hrest).
    + by eexists.
    + by eexists.
    + exists m', md'. repeat split; try done. by apply Hrest.
  - destruct (formatPineconeResponse_reshapes_each_match
                (number := nat) (other := nat) example_response _ 1 _
                eq_refl eq_refl) as (m' & Hm' & _ & Hraw).
    exists m'. split; [done|]. apply Hraw.
    intros (md & [= <-] & _ & [v Hv]). by vm_compute in Hv.
Defined.

Lemma formatPineconeResponse_frame_witness :
  namespace (formatPineconeResponse (number := nat) (other := nat)
               example_response) = Some (lit "docs") ∧
  ∃ ms',
    matches (formatPineconeResponse (number := nat) (other := nat)
               example_response) = Some ms' ∧
    length ms' = 3 ∧
    ∃ m', ms' !! 0 = Some m' ∧ match_id m' = lit "a.txt_0" ∧
          match_score m' = None ∧ match_values m' = None ∧
          match_sparseValues m' = None.
Proof.
  destruct (formatPineconeResponse_frame (number := nat) (other := nat)
              example_response) as (Hns & _ & Hms).
  split; [exact Hns|].
  destruct (Hms _ eq_refl) as (ms' & Hms' & Hlen & Hframe).
  exists ms'. split; [done|]. split; [done|].
  exact (Hframe 0 _ eq_refl).
Defined.

Lemma queryLanguageModelWithPineconeResponse_links_witness :
  ∃ result,
    queryLanguageModelWithPineconeResponse decimal
      (example_world (Message := ()) (JStr (lit "Yes.")) [1; 2] JNull)
      (Some (formatPineconeResponse example_response))
      (lit "What is Morpho?") (lit "sk-key") []
    = (Returned (Some result),
       [console_log_ev (lit "Asking question: What is Morpho?...");
        console_log_ev (lit "Found 3 matches...");
        chain_call_ev (lit "Morpho is a lending protocol. No link here. ")
          (instructions ++ LF ++ LF ++ lit "What is Morpho?");
        console_log_ev (lit "Answer: Yes.")]) ∧
    answer result = JStr (lit "Yes.") ∧
    length (documentLinks result) = 3 ∧
    documentLinks result !! 0 = Some (JStr (lit "https://docs/a")) ∧
    documentLinks result !! 1 = Some (JStr []) ∧
    documentLinks result !! 2 = Some (JStr []).
Proof.
  destruct (queryLanguageModelWithPineconeResponse_links decimal
              (example_world (Message := ()) (JStr (lit "Yes.")) [1; 2] JNull)
              (Some (formatPineconeResponse example_response))
              (lit "What is Morpho?") (lit "sk-key") [] _ _ (JStr (lit "Yes."))
              eq_refl eq_refl eq_refl)
    as (result & Hrun & Hanswer & Hlen & Hlinks).
  exists result. split; [exact Hrun|]. split; [done|]. split; [done|].
  split; [|split].
  - apply (proj2 (Hlinks 0 _ eq_refl) _ _ eq_refl eq_refl); discriminate.
  - apply (proj1 (Hlinks 1 _ eq_refl)). left. reflexivity.
  - apply (proj1 (Hlinks 2 _ eq_refl)). exact I.
Defined.

Lemma processDocument_vector_records_witness :
  ∃ vectors v,
    processDocument decimal (λ v, JStr (ToString decimal v))
      (example_world (Message := ()) JNull [1; 2; 3] (JOther 7))
      example_document (lit "sk-key") []
    = (Returned vectors,
       [embedDocuments_ev
          [lit "Link: http://doc1 Hello world, this is a test."]]) ∧
    length vectors = 1 ∧
    vectors !! 0 = Some v ∧
    vec_id v = lit "a.txt_0" ∧
    vec_values v = Some [1; 2; 3] ∧
    vec_metadata v !! "loc" = Some (JStr (lit "7")) ∧
    vec_metadata v !! "pageContent"
    = Some (JStr (lit "Link: http://doc1" ++ LF
                    ++ lit "Hello world, this is a test.")) ∧
    vec_metadata v !! "txtPath" = Some (JStr (lit "a.txt")) ∧
    vec_metadata v !! "docLink" = Some (JStr (lit "http://doc1")).
Proof.
  destruct (processDocument_vector_records decimal (λ v, JStr (ToString decimal v))
              (example_world (Message := ()) JNull [1; 2; 3] (JOther 7))
              example_document (lit "sk-key") [] _ _ eq_refl eq_refl eq_refl)
    as (vectors & Hrun & Hlen & Hrecords).
  destruct (Hrecords 0 _ eq_refl)
    as (v & Hv & Hid & _ & Hvalues & Hloc & Hpage & Hpath & Hlink & _).
  by exists vectors, v.
Defined.

Lemma handleReadCommand_keeps_empty_link_witness :
  documentLinks_of (number := nat) (other := nat)
    [example_match "a.txt_0" (Some example_metadata);
     example_match "c.txt_1" None] !! 1
  = Some (JStr []) ∧
  (JStr [] ∈ top_documentLinks (other := nat)
               ([JStr (lit "a")] ++ JStr [] :: [JStr []; JStr (lit "b")])
   ↔ length (distinctDocumentLinks [JStr (other := nat) (lit "a")]) < 3) ∧
  ∃ lines,
    handleReadCommand (number := nat) decimal
      (λ _ _ _ t,
         (Returned
            (Some {| answer := JStr (lit "Yes.");
                     documentLinks :=
                       [JStr (lit "a"); JStr []; JStr []; JStr (lit "b");
                        JStr (lit "c")] |}), t))
      () (lit "What is Morpho?") () (lit "index") []
    = (Returned (),
       [] ++ [channel_send_ev ()
                (LF ++ lit "**Answer:**" ++ LF ++ lit " " ++ lit "Yes." ++ LF
                    ++ lit "**Useful resources:**" ++ LF ++ join LF lines)]) ∧
    length lines = 3 ∧
    lines !! 1 = Some (lit "**Link 2:** <>").
Proof.
  assert (JStr (other := nat) [] ∉ [JStr (lit "a")]) as Hbefore.
  { intros Hin. apply list_elem_of_singleton in Hin. discriminate Hin. }
  split; [|split].
  - apply (proj1 (handleReadCommand_keeps_empty_link (number := nat) decimal
                    (PineconeClient := ()) (Message := ())
                    (λ _ _ _ t, (Returned None, t)))
             _ 1 (example_match "c.txt_1" None)).
    + reflexivity.
    + exact I.
  - apply (proj1 (proj2 (proj2 (handleReadCommand_keeps_empty_link
                                  (number := nat) decimal
                                  (PineconeClient := ()) (Message := ())
                                  (λ _ _ _ t, (Returned None, t)))))
             [JStr (lit "a")] [JStr []; JStr (lit "b")] Hbefore).
  - destruct (proj1 (proj2 (proj2 (proj2 (proj2
                (handleReadCommand_keeps_empty_link (number := nat) decimal
                   (λ _ _ _ t,
                      (Returned
                         (Some {| answer := JStr (lit "Yes.");
                                  documentLinks :=
                                    [JStr (lit "a"); JStr []; JStr [];
                                     JStr (lit "b"); JStr (lit "c")] |}),
                       t)))))))
                () (lit "What is Morpho?") () (lit "index") [] [] _
                [JStr (lit "a")] [JStr []; JStr (lit "b"); JStr (lit "c")]
                eq_refl eq_refl Hbefore)
      as (lines & Hrun & Hlength & Hline).
    + vm_compute. lia.
    + exists lines. split; [exact Hrun|]. split; [exact Hlength|exact Hline].
Defined.

(** The ingestion scenario of the specification: one short document gives
    one embedding request, one upsert of one record and one progress
    line. *)
Example updatePineconeIndex_one_document :
  updatePineconeIndex decimal (λ v, JStr (ToString decimal v))
    (example_world (Message := ()) JNull [1; 2; 3] (JOther 7))
    (λ _ _, None) () (lit "sk-key") (lit "docs") [example_document] []
  = (Returned (),
     [embedDocuments_ev [lit "Link: http://doc1 Hello world, this is a test."];
      index_upsert_ev
        [{| vec_id := lit "a.txt_0";
            vec_values := Some [1; 2; 3];
            vec_metadata :=
              <["docLink" := JStr (lit "http://doc1")]>
                (<["txtPath" := JStr (lit "a.txt")]>
                   (<["pageContent" :=
                        JStr (lit "Link: http://doc1" ++ LF
                                ++ lit "Hello world, this is a test.")]>
                      {["loc" := JStr (lit "7")]})) |}];
      console_log_ev (lit "Processing document 1 of 1, generated 1 vectors")]).
Proof. vm_compute. reflexivity. Qed.

(** * The further properties at concrete inputs *)

Lemma extractDocumentLink_to_end_of_line_witness :
  ∃ a r,
    lit "See Link: http://doc1" ++ LF ++ lit "rest"
    = a ++ lit "Link: "
        ++ extractDocumentLink (lit "See Link: http://doc1" ++ LF ++ lit "rest")
        ++ r ∧
    (r = [] ∨ ∃ c r', r = c :: r' ∧ LineTerminator c = true).
Proof.
  apply (proj2 (extractDocumentLink_to_end_of_line
                  (lit "See Link: http://doc1" ++ LF ++ lit "rest"))).
  by vm_compute.
Defined.

Lemma replace_newlines_pointwise_witness :
  replace_newlines (lit "a" ++ LF ++ lit "b") !! 1 = Some 32%N ∧
  replace_newlines (lit "ab") = lit "ab".
Proof.
  split.
  - apply (proj1 (proj2 (replace_newlines_pointwise (lit "a" ++ LF ++ lit "b")))
             1 10%N).
    reflexivity.
  - apply (proj2 (proj2 (proj2 (replace_newlines_pointwise (lit "ab"))))).
    by vm_compute; intros [[=]|[[=]|[]%elem_of_nil]%elem_of_cons]%elem_of_cons.
Defined.

Lemma queryLanguageModelWithPineconeResponse_outcomes_witness :
  ∃ added,
    [console_log_ev (number := nat) (other := nat) (Message := ())
       (lit "Asking question: " ++ lit "What is Morpho?" ++ lit "...");
     console_log_ev
       (lit "Since there are no matches, GPT-3.5 will not be queried.")]
    = [] ++ added ∧
    filter (λ e, is_chain_call e = true) added = [].
Proof.
  destruct (queryLanguageModelWithPineconeResponse_outcomes decimal
              (example_world (number := nat) (Message := ())
                 (JStr (lit "Yes.")) [] JNull)
              (Some {| matches := Some []; namespace := None |})
              (lit "What is Morpho?") (lit "sk-key") [] (Returned None)
              [console_log_ev
                 (lit "Asking question: " ++ lit "What is Morpho?" ++ lit "...");
               console_log_ev
                 (lit "Since there are no matches, GPT-3.5 will not be queried.")]
              eq_refl)
    as (added & Htrace & _ & Hnone).
  by exists added.
Defined.

Lemma handleReadCommand_one_message_witness :
  ∃ added content,
    handleReadCommand (number := nat) decimal
      (λ _ _ _ t, (Thrown (JStr (lit "PineconeError: 503")), t))
      () (lit "What is Morpho?") () (lit "index") []
    = (Returned (), [] ++ added) ∧
    filter (λ e, is_channel_send e = true) added
    = [channel_send_ev () content] ∧
    added = [console_error_ev (lit "Error:") (JStr (lit "PineconeError: 503"));
             channel_send_ev () content].
Proof.
  apply (handleReadCommand_one_message (number := nat) decimal
           (λ _ _ _ t, (Thrown (JStr (lit "PineconeError: 503")), t))
           () (lit "What is Morpho?") () (lit "index") []
           (Thrown (JStr (lit "PineconeError: 503"))) []).
  reflexivity.
Defined.


Lemma processDocument_ids_distinct_witness :
  NoDup (vec_id <$> example_records (number := nat) (other := nat) (λ v, v)).
Proof.
  apply (processDocument_ids_distinct decimal (λ v, v)
           (example_world_with (Message := ())
              (Returned [example_chunk "one"; example_chunk "two"])
              (Returned [[]]) 1)
           example_document (lit "sk-key") []
           (example_records (λ v, v))
           [embedDocuments_ev [lit "one"; lit "two"]]).
  reflexivity.
Defined.

Lemma processDocument_id_determines_source_and_index_witness :
  lit "a.txt" = lit "a.txt" ∧ 1 = 1.
Proof.
  apply (processDocument_id_determines_source_and_index decimal (λ v, v)
           (example_world_with (number := nat) (other := nat) (Message := ())
              (Returned [example_chunk "one"; example_chunk "two"])
              (Returned [[]]) 1)
           example_document example_document (lit "sk-key") (lit "sk-key") [] []
           (example_records (λ v, v)) (example_records (λ v, v))
           [embedDocuments_ev [lit "one"; lit "two"]]
           [embedDocuments_ev [lit "one"; lit "two"]]
           (lit "a.txt") (lit "a.txt") 1 1
           {| vec_id := lit "a.txt_1"; vec_values := None;
              vec_metadata :=
                vector_metadata (λ v, v) (example_chunk "two")
                  (JStr (lit "a.txt")) (lit "http://doc1") |}
           {| vec_id := lit "a.txt_1"; vec_values := None;
              vec_metadata :=
                vector_metadata (λ v, v) (example_chunk "two")
                  (JStr (lit "a.txt")) (lit "http://doc1") |});
    reflexivity.
Defined.

Lemma processDocument_failures_witness :
  createDocuments
    (example_world_with (number := nat) (other := nat) (Message := ())
       (Thrown (JStr (lit "splitter failed"))) (Returned [[]]) 1)
    (lit "Link: http://doc1" ++ LF ++ lit "Hello world, this is a test.")
  = Thrown (JStr (lit "splitter failed")).
Proof.
  destruct (processDocument_failures decimal (λ v, v)
              (example_world_with (number := nat) (other := nat) (Message := ())
                 (Thrown (JStr (lit "splitter failed"))) (Returned [[]]) 1)
              example_document (lit "sk-key") []
              (JStr (lit "splitter failed")) [] eq_refl)
    as [[Hsplit _]|(chunks & Hsplit & _)]; [exact Hsplit|discriminate Hsplit].
Defined.

Lemma processDocument_missing_embeddings_witness :
  ∃ vectors,
    processDocument decimal (λ v, v)
      (example_world_with (number := nat) (other := nat) (Message := ())
         (Returned [example_chunk "one"; example_chunk "two"])
         (Returned [[]]) 1)
      example_document (lit "sk-key") []
    = (Returned vectors, [] ++ [embedDocuments_ev [lit "one"; lit "two"]]) ∧
    length vectors = 2 ∧
    ∃ v, vectors !! 1 = Some v ∧ vec_values v = None.
Proof.
  destruct (processDocument_missing_embeddings decimal (λ v, v)
              (example_world_with (number := nat) (other := nat) (Message := ())
                 (Returned [example_chunk "one"; example_chunk "two"])
                 (Returned [[]]) 1)
              example_document (lit "sk-key") []
              [example_chunk "one"; example_chunk "two"] [[]])
    as (vectors & Hrun & Hlength & _ & Hlast).
  - reflexivity.
  - reflexivity.
  - reflexivity.
  - simpl. lia.
  - exists vectors. split; [exact Hrun|]. split; [exact Hlength|exact Hlast].
Defined.

Lemma upsertVectors_any_index_witness :
  ∃ n,
    [index_upsert_ev (number := nat) (other := nat) (Message := ())
       (replicate 100 example_vector);
     index_upsert_ev (replicate 100 example_vector)]
    = [] ++ ((λ k, index_upsert_ev
                     (spec_batch (replicate 250 example_vector) k)) <$> seq 0 n) ∧
    n ≤ spec_ceil_div (length (replicate 250 (example_vector (number := nat)
                                                (other := nat)))) 100 ∧
    (∀ j, j < n →
       S j < n ∨ Thrown (other := nat) (JStr (lit "quota exceeded"))
                 = Returned () →
       index_upsert
         (example_world_with (number := nat) (other := nat) (Message := ())
            (Returned []) (Returned []) 1)
         ([] ++ ((λ k, index_upsert_ev
                         (spec_batch (replicate 250 example_vector) k))
                   <$> seq 0 (S j)))
         (spec_batch (replicate 250 example_vector) j)
       = None) ∧
    ∃ k, n = S k ∧
         index_upsert
           (example_world_with (number := nat) (other := nat) (Message := ())
              (Returned []) (Returned []) 1)
           [index_upsert_ev (replicate 100 example_vector);
            index_upsert_ev (replicate 100 example_vector)]
           (spec_batch (replicate 250 example_vector) k)
         = Some (JStr (lit "quota exceeded")).
Proof.
  apply (upsertVectors_any_index
           (example_world_with (number := nat) (other := nat) (Message := ())
              (Returned []) (Returned []) 1)
           (replicate 250 example_vector) []
           (Thrown (JStr (lit "quota exceeded")))).
  by vm_compute.
Defined.

Lemma updatePineconeIndex_all_succeed_witness :
  updatePineconeIndex decimal (λ v, v)
    (example_world (number := nat) (other := nat) (Message := ()) JNull [] JNull)
    (λ _ _, Some (JStr (lit "TypeError: client.Index is not a function")))
    () (lit "sk-key") (lit "docs") [example_document; example_document] []
  = (Thrown (JStr (lit "TypeError: client.Index is not a function")), []) ∧
  ∃ records,
    length records = 2 ∧
    updatePineconeIndex decimal (λ v, v)
      (example_world (number := nat) (other := nat) (Message := ()) JNull [] JNull)
      (λ _ _, None)
      () (lit "sk-key") (lit "docs") [example_document; example_document] []
    = (Returned (),
       [] ++ spec_ingestion_events
               (λ text, [{| pageContent := text;
                            doc_metadata := {["loc" := JNull]} |}])
               1 2 [example_document; example_document] records).
Proof.
  split.
  - apply (proj1 (updatePineconeIndex_all_succeed decimal (λ v, v)
                    (example_world (number := nat) (other := nat)
                       (Message := ()) JNull [] JNull)
                    (λ _ _,
                       Some (JStr (lit "TypeError: client.Index is not a function")))
                    () (lit "sk-key") (lit "docs")
                    (λ text, [{| pageContent := text;
                                 doc_metadata := {["loc" := JNull]} |}])
                    [example_document; example_document] [])).
    reflexivity.
  - destruct (proj2 (updatePineconeIndex_all_succeed decimal (λ v, v)
                       (example_world (number := nat) (other := nat)
                          (Message := ()) JNull [] JNull)
                       (λ _ _, None)
                       () (lit "sk-key") (lit "docs")
                       (λ text, [{| pageContent := text;
                                    doc_metadata := {["loc" := JNull]} |}])
                       [example_document; example_document] []))
      as (records & Hlength & Hrun & _).
    + reflexivity.
    + intros text. reflexivity.
    + reflexivity.
    + intros t texts. eexists. reflexivity.
    + intros t batch. reflexivity.
    + exists records. split; [exact Hlength|exact Hrun].
Defined.

Lemma createPineconeIndexIfNotExist_creates_iff_absent_witness :
  createPineconeIndexIfNotExist
    (example_store (number := nat) (other := nat) (Message := ()) (lit "docs"))
    () (lit "docs") 1536 None []
  = (Returned (),
     [inl (console_log_ev (lit "Checking " ++ quote ++ lit "docs" ++ quote
                             ++ lit "..."));
      inr (listIndexes_ev ());
      inl (console_log_ev (lit "Creating " ++ quote ++ lit "docs" ++ quote
                             ++ lit "..."));
      inr (createIndex_ev ()
             {| create_name := lit "docs"; create_dimension := 1536;
                create_metric := lit "cosine" |});
      inl (console_log_ev
             (lit "Creating index.... please wait for it to finish initializing."));
      inr (setTimeout_ev 180000)]).
Proof.
  etrans.
  - apply (proj2 (createPineconeIndexIfNotExist_creates_iff_absent
                    (example_store (lit "docs")) () (lit "docs") 1536 None [] []
                    eq_refl)).
    + apply not_elem_of_nil.
    + reflexivity.
  - reflexivity.
Defined.

Lemma createPineconeIndexIfNotExist_outcomes_witness :
  ∃ added,
    [inr (createIndex_ev (number := nat) ()
            {| create_name := lit "docs"; create_dimension := 1536;
               create_metric := lit "cosine" |});
     inl (console_log_ev (other := nat) (Message := ())
            (lit "Checking " ++ quote ++ lit "docs" ++ quote ++ lit "..."));
     inr (listIndexes_ev ());
     inl (console_log_ev (quote ++ lit "docs" ++ quote
                            ++ lit " already exists."))]
    = [inr (createIndex_ev ()
              {| create_name := lit "docs"; create_dimension := 1536;
                 create_metric := lit "cosine" |})] ++ added ∧
    filter (λ e, is_setTimeout e = true) added = [].
Proof.
  destruct (createPineconeIndexIfNotExist_outcomes
              (example_store (number := nat) (other := nat) (Message := ())
                 (lit "docs"))
              () (lit "docs") 1536 None
              [inr (createIndex_ev ()
                      {| create_name := lit "docs"; create_dimension := 1536;
                         create_metric := lit "cosine" |})]
              (Returned ())
              [inr (createIndex_ev ()
                      {| create_name := lit "docs"; create_dimension := 1536;
                         create_metric := lit "cosine" |});
               inl (console_log_ev (lit "Checking " ++ quote ++ lit "docs"
                                      ++ quote ++ lit "..."));
               inr (listIndexes_ev ());
               inl (console_log_ev (quote ++ lit "docs" ++ quote
                                      ++ lit " already exists."))]
              eq_refl)
    as (added & Htrace & Hcases).
  exists added. split; [exact Htrace|].
  cbn [app] in Htrace. injection Htrace as <-. reflexivity.
Defined.

Lemma createPineconeIndexIfNotExist_twice_witness :
  ∃ added,
    (createPineconeIndexIfNotExist
       (example_store (number := nat) (other := nat) (Message := ()) (lit "docs"))
       () (lit "docs") 1536 None;;
     createPineconeIndexIfNotExist (example_store (lit "docs"))
       () (lit "docs") 1536 None) []
    = (Returned (), [] ++ added) ∧
    filter (λ e, is_createIndex e = true) added
    = [inr (createIndex_ev ()
              {| create_name := lit "docs"; create_dimension := 1536;
                 create_metric := lit "cosine" |})] ∧
    filter (λ e, is_setTimeout e = true) added = [inr (setTimeout_ev 180000)].
Proof.
  apply (createPineconeIndexIfNotExist_twice
           (example_store (number := nat) (other := nat) (Message := ())
              (lit "docs"))
           () (lit "docs") 1536 None [] []).
  - reflexivity.
  - apply not_elem_of_nil.
  - reflexivity.
  - intros t1 Hin. exists [lit "docs"]. split; [|apply list_elem_of_here].
    cbn. replace (existsb is_createIndex t1) with true; [done|].
    symmetry. apply existsb_exists. eexists.
    split; [apply list_elem_of_In; exact Hin|reflexivity].
Defined.

Lemma queryPineconeVectorStore_outcomes_witness :
  ∃ added queryEmbedding,
    [inl (console_log_ev (number := nat) (other := nat) (Message := ())
            (lit "Querying Pinecone vector store..."));
     inr (embedQuery_ev (number := nat) (PineconeClient := ())
            (lit "What is Morpho?"));
     inr (index_query_ev ()
            (lit "docs")
            {| topK := 10; vector := []; includeMetadata := true;
               includeValues := true |})]
    = [] ++ added ∧
    added
    = [inl (console_log_ev (lit "Querying Pinecone vector store..."));
       inr (embedQuery_ev (lit "What is Morpho?"));
       inr (index_query_ev () (lit "docs")
              {| topK := 10; vector := queryEmbedding; includeMetadata := true;
                 includeValues := true |})].
Proof.
  destruct (queryPineconeVectorStore_outcomes
              (λ _ _, None)
              (example_store (number := nat) (other := nat) (Message := ())
                 (lit "docs"))
              () (lit "docs") (lit "What is Morpho?") []
              (Returned example_response)
              [inl (console_log_ev (lit "Querying Pinecone vector store..."));
               inr (embedQuery_ev (lit "What is Morpho?"));
               inr (index_query_ev () (lit "docs")
                      {| topK := 10; vector := []; includeMetadata := true;
                         includeValues := true |})]
              eq_refl)
    as (added & Htrace & queryEmbedding & _ & _ & _ & _ & Hadded).
  by exists added, queryEmbedding.
Defined.

